(** * The FizzBuzz rule pipeline (fizzbuzz.ts)

    A shallow embedding of [src/fizzbuzz.ts] and the properties of its
    specification.

    Modelling conventions.
    - JavaScript numbers are the integers [Z]: the range bounds, the step,
      the numbers handed to the rules and the priorities are integers in the
      safe range, where the double arithmetic of the source is exact.
    - An object of type [FizzBuzzRule] is a record that carries its object
      identity in [ident]; [===], [!==] and [Array.prototype.includes] on
      rules compare identities.
    - The [rules] arrays of rule sets and groups are mutable JavaScript
      arrays that may be shared: they live in a store and the records hold
      their addresses.
    - Predicates, selectors, transformers, decorators and formatters are
      pure functions.  Event callbacks return nothing: all they can do is
      an effect, recorded in the trace of the store.
    - An uncaught exception ends the run: computations return a
      [Completion].  Sequences stay below the length limit of arrays.
    - The source uses, without declaring them, the type [RuleCombinator]
      and the three names of the script of lines 178-200: the type is read
      off its uses and the names are parameters of the script. *)

From Stdlib Require Import ZArith Ascii DecimalString.
From Stdlib Require DecimalPos DecimalZ.
From stdpp Require Import gmap strings list sorting.

Local Open Scope Z_scope.

(** ** Types of the source (lines 1-42) *)

(** [context?: any]: an optional value; the pipeline itself only ever has
    numbers (array indices) to pass. *)
Definition Context : Type := option Z.

Definition RuleEvaluator : Type := Z → Context → bool.

Definition ResultTransformer : Type := string → Z → Context → string.

Definition ResultFormatter : Type := list string → string.

(** An event callback [(num) => void], known by the effect it leaves. *)
Definition EventHandler : Type := string.

(** Address of a [FizzBuzzRule[]] array in the store. *)
Abbreviation ArrayRef := positive.

(** A rule object.  [ident] is its identity; [rule_condition] is the
    [condition] property that [evaluateRule] reads, which the declared type
    does not list. *)
Record FizzBuzzRule : Type := mkRule {
  ident : positive;
  evaluator : option RuleEvaluator;
  rule_condition : option RuleEvaluator;
  output : string;
  events : option (list EventHandler);
  rule_filter : option RuleEvaluator;
  priority : option Z;
  rule_resultTransformer : option ResultTransformer
}.

Definition RuleDecorator : Type := FizzBuzzRule → Context → FizzBuzzRule.

Inductive SelectBehavior : Type := SelectAll | SelectFirst | SelectLast.

Record TaggedRuleGroup : Type := mkGroup {
  tag : string;
  group_rules : ArrayRef;
  selectBehavior : SelectBehavior;
  decorators : option (list RuleDecorator);
  group_resultTransformer : option ResultTransformer
}.

Definition RuleGroupSelector : Type := Z → Context → option (list TaggedRuleGroup).

Definition RuleGroupModifier : Type := list TaggedRuleGroup → Context → list TaggedRuleGroup.

Record RuleSet : Type := mkRuleSet {
  set_condition : RuleEvaluator;
  set_rules : ArrayRef
}.

Definition RuleSelector : Type := Z → Context → option (list RuleSet).

Record FizzBuzzPlugin : Type := mkPlugin {
  ruleGroupSelectors : option (list RuleGroupSelector);
  ruleSelectors : option (list RuleSelector);
  ruleGroupModifiers : option (list RuleGroupModifier);
  resultFormatters : option (list ResultFormatter)
}.

(** ** Store, exceptions and the computation monad *)

Record Store : Type := mkStore {
  arrays : gmap positive (list FizzBuzzRule);
  trace : list (EventHandler * Z)
}.

Inductive JsError : Type := TypeError | RangeError.

Inductive Completion (A : Type) : Type :=
| Normal (a : A)
| Throw (e : JsError).
Arguments Normal {A} a.
Arguments Throw {A} e.

Definition M (A : Type) : Type := Store → Completion A * Store.

Definition ret {A} (a : A) : M A := fun σ => (Normal a, σ).

Definition bind {A B} (m : M A) (k : A → M B) : M B :=
  fun σ => match m σ with
           | (Normal a, σ') => k a σ'
           | (Throw e, σ') => (Throw e, σ')
           end.

Definition throw {A} (e : JsError) : M A := fun σ => (Throw e, σ).

Definition lift {A} (c : Completion A) : M A := fun σ => (c, σ).

Definition getArrays : M (gmap positive (list FizzBuzzRule)) :=
  fun σ => (Normal (arrays σ), σ).

Definition modifyArrays (f : gmap positive (list FizzBuzzRule) → gmap positive (list FizzBuzzRule)) : M unit :=
  fun σ => (Normal tt, mkStore (f (arrays σ)) (trace σ)).

Definition emit (h : EventHandler) (num : Z) : M unit :=
  fun σ => (Normal tt, mkStore (arrays σ) (trace σ ++ [(h, num)])).

Declare Scope js_scope.
Delimit Scope js_scope with js.
Notation "'let*' x ':=' m 'in' k" := (bind m (fun x => k))
  (at level 10, x name, m at level 100, k at level 200) : js_scope.

(** [array.forEach(f)] for an effectful [f]. *)
Fixpoint forEach {A} (f : A → M unit) (l : list A) : M unit :=
  match l with
  | [] => ret tt
  | a :: l' => (let* _ := f a in forEach f l')%js
  end.

(** [array.reduce(f, init)]: the callback receives the accumulator, the
    element and the element's index; an exception in the callback ends the
    reduction. *)
Fixpoint reduceFrom {A B} (f : B → A → nat → Completion B) (index : nat) (l : list A) (acc : B)
  : Completion B :=
  match l with
  | [] => Normal acc
  | a :: l' =>
    match f acc a index with
    | Normal acc' => reduceFrom f (S index) l' acc'
    | Throw e => Throw e
    end
  end.

Definition reduce {A B} (f : B → A → nat → Completion B) (l : list A) (init : B) : Completion B :=
  reduceFrom f 0%nat l init.

(** [array.filter(p)] where the callback also receives the index. *)
Fixpoint filterFrom {A} (p : A → nat → bool) (index : nat) (l : list A) : list A :=
  match l with
  | [] => []
  | a :: l' => if p a index then a :: filterFrom p (S index) l' else filterFrom p (S index) l'
  end.

Definition filterIndexed {A} (p : A → nat → bool) (l : list A) : list A :=
  filterFrom p 0%nat l.

(** [array.sort(compare)]: the sort of the language is stable; an element
    is placed before the first one it does not compare greater than. *)
Fixpoint insertBy {A} (compare : A → A → Z) (a : A) (l : list A) : list A :=
  match l with
  | [] => [a]
  | b :: l' => if compare a b <=? 0 then a :: b :: l' else b :: insertBy compare a l'
  end.

Definition sortBy {A} (compare : A → A → Z) (l : list A) : list A :=
  foldr (insertBy compare) [] l.

(** ** Helper functions of the source (lines 44-84) *)

(** What a caller can put in the [decorators] argument of
    [applyDecorators]: the array the signature asks for, or a single
    decorator function. *)
Inductive DecoratorsArg : Type :=
| DecoratorArray (ds : list RuleDecorator)
| DecoratorFunction (d : RuleDecorator).

(** Lines 44-46.  [decorators.reduce(...)]: an array is reduced; a function
    object has no [reduce] method and the call raises a TypeError. *)
Definition applyDecorators (rule : FizzBuzzRule) (decorators : DecoratorsArg) (context : Context)
  : Completion FizzBuzzRule :=
  match decorators with
  | DecoratorArray ds =>
    Normal (fold_left (fun modifiedRule decorator => decorator modifiedRule context) ds rule)
  | DecoratorFunction _ => Throw TypeError
  end.

(** Lines 48-52. *)
Definition applyRuleEvents (rule : FizzBuzzRule) (num : Z) : M unit :=
  match events rule with
  | Some evs => forEach (fun event => emit event num) evs
  | None => ret tt
  end.

(** Lines 54-61. *)
Definition evaluateRule (rule : FizzBuzzRule) (num : Z) (context : Context) : bool :=
  match evaluator rule with
  | Some ev => ev num context
  | None =>
    match rule_condition rule with
    | Some cond => cond num context
    | None => false
    end
  end.

(** [a === b] on rule objects. *)
Definition sameRule (a b : FizzBuzzRule) : bool := Pos.eqb (ident a) (ident b).

(** [rules.includes(rule)]. *)
Definition includes (rules : list FizzBuzzRule) (rule : FizzBuzzRule) : bool :=
  existsb (sameRule rule) rules.

(** [group.rules.includes(rule)], reading the array of the group. *)
Definition groupIncludes (h : gmap positive (list FizzBuzzRule)) (rule : FizzBuzzRule)
  (group : TaggedRuleGroup) : bool :=
  includes (h !!! group_rules group) rule.

(** Lines 76-79. *)
Definition getRuleTag (h : gmap positive (list FizzBuzzRule)) (rule : FizzBuzzRule)
  (matchingGroups : list TaggedRuleGroup) : string :=
  match List.find (groupIncludes h rule) matchingGroups with
  | Some group => tag group
  | None => "Default"
  end.

(** Lines 81-84. *)
Definition applyResultTransformer (result : string) (num : Z) (matchingGroups : list TaggedRuleGroup)
  : string :=
  let ruleTransformers :=
    flat_map (fun group => match group_resultTransformer group with
                           | Some t => [t]
                           | None => []
                           end) matchingGroups in
  fold_left (fun modifiedResult transformer => transformer modifiedResult num None)
            ruleTransformers result.

(** ** The evaluator of one number: [applyRules] (lines 115-166) *)

(** [a.priority || 0]. *)
Definition priorityOf (rule : FizzBuzzRule) : Z :=
  match priority rule with
  | Some p => p
  | None => 0
  end.

(** The comparator of line 134. *)
Definition comparePriority (a b : FizzBuzzRule) : Z := priorityOf a - priorityOf b.

Definition sortRules (rules : list FizzBuzzRule) : list FizzBuzzRule :=
  sortBy comparePriority rules.

(** The filter of line 135: [!index || rule !== self[index - 1]]. *)
Definition removeDuplicates (self : list FizzBuzzRule) : list FizzBuzzRule :=
  filterIndexed
    (fun rule index =>
       Nat.eqb index 0
       || negb (match self !! (index - 1)%nat with
                | Some previous => sameRule rule previous
                | None => false
                end))
    self.

(** [rule.filter && !rule.filter(i)] of line 138. *)
Definition filteredOut (rule : FizzBuzzRule) (i : Z) : bool :=
  match rule_filter rule with
  | Some f => negb (f i None)
  | None => false
  end.

(** Lines 144-150: the groups of the rule, its decorators, and the label
    appended to [result].  The reducer of line 145 is [applyDecorators]
    itself, so it receives the accumulator, one decorator and its index. *)
Definition labelRule (i : Z) (matchingGroups : list TaggedRuleGroup) (rule : FizzBuzzRule)
  (result : string) : M string :=
  (let* h := getArrays in
   let ruleGroupsWithRule := List.filter (groupIncludes h rule) matchingGroups in
   let* modifiedRule :=
     lift (reduce (fun acc decorator index =>
                     applyDecorators acc (DecoratorFunction decorator) (Some (Z.of_nat index)))
                  (flat_map (fun group => match decorators group with
                                          | Some ds => ds
                                          | None => []
                                          end) ruleGroupsWithRule)
                  rule) in
   ret (result +:+ "[" +:+ getRuleTag h rule ruleGroupsWithRule +:+ ": "
        +:+ applyResultTransformer (output modifiedRule) i ruleGroupsWithRule +:+ "]"))%js.

(** Lines 137-153: the loop over the sorted rules; it ends at the first
    rule that matches. *)
Fixpoint forRules (i : Z) (matchingGroups : list TaggedRuleGroup) (sortedRules : list FizzBuzzRule)
  (result : string) : M string :=
  match sortedRules with
  | [] => ret result
  | rule :: rest =>
    if filteredOut rule i then forRules i matchingGroups rest result
    else if evaluateRule rule i None then
      (let* _ := applyRuleEvents rule i in
       labelRule i matchingGroups rule result)%js
    else forRules i matchingGroups rest result
  end.

(** Lines 131-159: the loop over the rule sets.  [sort] works in place on
    the array of the rule set; [filter] builds a new array. *)
Fixpoint forRuleSets (i : Z) (matchingGroups : list TaggedRuleGroup) (ruleSets : list RuleSet)
  (result : string) : M string :=
  match ruleSets with
  | [] => ret result
  | ruleSet :: rest =>
    if set_condition ruleSet i None then
      (let* _ := modifyArrays (alter sortRules (set_rules ruleSet)) in
       let* h := getArrays in
       let sortedRules := removeDuplicates (h !!! set_rules ruleSet) in
       let* result' := forRules i matchingGroups sortedRules result in
       if String.eqb result' "" then forRuleSets i matchingGroups rest result'
       else ret result')%js
    else forRuleSets i matchingGroups rest result
  end.

Section ApplyRules.

(** What the closure [applyRules] captures from [fizzBuzz]. *)
Variable ruleGroupSelectors' : list RuleGroupSelector.
Variable ruleSelectors' : list RuleSelector.
Variable defaultOutput : Z → string.

(** Lines 117-122: [matchingGroups.push(...(ruleGroupSelector(i) || []))]. *)
Definition collectGroups (i : Z) : list TaggedRuleGroup :=
  fold_left (fun matchingGroups ruleGroupSelector =>
               matchingGroups ++ match ruleGroupSelector i None with
                                 | Some taggedRuleGroups => taggedRuleGroups
                                 | None => []
                                 end)
            ruleGroupSelectors' [].

(** Lines 124-129. *)
Definition collectRuleSets (i : Z) : list RuleSet :=
  fold_left (fun ruleSets ruleSelector =>
               ruleSets ++ match ruleSelector i None with
                           | Some sets => sets
                           | None => []
                           end)
            ruleSelectors' [].

Definition applyRules (i : Z) : M string :=
  (let matchingGroups := collectGroups i in
   let ruleSets := collectRuleSets i in
   let* result := forRuleSets i matchingGroups ruleSets "" in
   if String.eqb result "" then ret (defaultOutput i) else ret result)%js.

End ApplyRules.

(** ** Rule combinators (lines 63-74) *)

(** Modelled from the spec: the type [RuleCombinator], which the source
    names but does not declare.  Its shape is read off the three
    properties that [evaluateRuleCombinator] reads, [type], [rules] and
    [rule], each of which an object may lack. *)
Record RuleCombinator : Type := mkCombinator {
  comb_type : option string;
  comb_rules : option (list FizzBuzzRule);
  comb_rule : option FizzBuzzRule
}.

(** Lines 63-74.  Calling [every] or [some] on an absent [rules], or
    reading the evaluator of an absent [rule], raises a TypeError. *)
Definition evaluateRuleCombinator (combinator : RuleCombinator) (num : Z) (context : Context)
  : Completion bool :=
  match comb_type combinator with
  | Some "AND" =>
    match comb_rules combinator with
    | Some rules => Normal (forallb (fun rule => evaluateRule rule num context) rules)
    | None => Throw TypeError
    end
  | Some "OR" =>
    match comb_rules combinator with
    | Some rules => Normal (existsb (fun rule => evaluateRule rule num context) rules)
    | None => Throw TypeError
    end
  | Some "NOT" =>
    match comb_rule combinator with
    | Some rule => Normal (negb (evaluateRule rule num context))
    | None => Throw TypeError
    end
  | _ => Normal false
  end.

(** ** The driver: [fizzBuzz] (lines 86-176) *)

(** The four arrays filled by the loop of lines 100-113. *)
Record Extracted : Type := mkExtracted {
  x_ruleGroupSelectors : list RuleGroupSelector;
  x_ruleSelectors : list RuleSelector;
  x_ruleGroupModifiers : list RuleGroupModifier;
  x_resultFormatters : list ResultFormatter
}.

(** [if (field) { array.push(...field) }]. *)
Definition pushAll {A} (array : list A) (field : option (list A)) : list A :=
  match field with
  | Some items => array ++ items
  | None => array
  end.

(** One turn of the loop of lines 100-113. *)
Definition extractPlugin (x : Extracted) (plugin : FizzBuzzPlugin) : Extracted :=
  {| x_ruleGroupSelectors := pushAll (x_ruleGroupSelectors x) (ruleGroupSelectors plugin);
     x_ruleSelectors := pushAll (x_ruleSelectors x) (ruleSelectors plugin);
     x_ruleGroupModifiers := pushAll (x_ruleGroupModifiers x) (ruleGroupModifiers plugin);
     x_resultFormatters := pushAll (x_resultFormatters x) (resultFormatters plugin) |}.

Definition extractPlugins (plugins : list FizzBuzzPlugin) : Extracted :=
  fold_left extractPlugin plugins (mkExtracted [] [] [] []).

(** [num.toString()] on an integer. *)
Definition toString (num : Z) : string := NilZero.string_of_int (Z.to_int num).

(** [results.join(separator)]. *)
Definition join (separator : string) (results : list string) : string :=
  String.concat separator results.

(** [Math.ceil(a / b)] for integers [a] and [b], [b] not zero. *)
Definition ceilDiv (a b : Z) : Z := - ((- a) / b).

(** [Array.from({ length }, (_, index) => f(index))]: the callback runs for
    the indices [0 .. length-1] in order. *)
Fixpoint arrayFromAt {A} (f : nat → M A) (count index : nat) : M (list A) :=
  match count with
  | O => ret []
  | S count' =>
    (let* a := f index in
     let* rest := arrayFromAt f count' (S index) in
     ret (a :: rest))%js
  end.

(** A negative length counts as zero. *)
Definition arrayFrom {A} (length : Z) (f : nat → M A) : M (list A) :=
  arrayFromAt f (Z.to_nat length) 0%nat.

(** The numbers the driver evaluates (line 170). *)
Definition numberAt (start step : Z) (index : nat) : Z := start + Z.of_nat index * step.

(** Lines 86-176.  The last three parameters are optional and have the
    defaults of lines 90-92.  With a zero step the quotient of line 168 is
    infinite for a positive dividend, a length that [Array.from] rejects
    with a RangeError; for any other dividend the length counts as zero. *)
Definition fizzBuzz (start end_ step : Z) (plugins : option (list FizzBuzzPlugin))
  (defaultOutput : option (Z → string)) (resultFormatter : option ResultFormatter) : M string :=
  let plugins := default [] plugins in
  let defaultOutput := default toString defaultOutput in
  let resultFormatter := default (join " ") resultFormatter in
  let x := extractPlugins plugins in
  if (step =? 0) && (0 <? end_ - start + 1) then throw RangeError
  else
    let sequenceLength := ceilDiv (end_ - start + 1) step in
    (let* results :=
       arrayFrom sequenceLength
         (fun index => applyRules (x_ruleGroupSelectors x) (x_ruleSelectors x) defaultOutput
                                  (numberAt start step index)) in
     let finalResult := resultFormatter results in
     ret finalResult)%js.

(** ** The script (lines 178-200) *)

Section Script.

(** The three names that the script uses without defining them. *)
Variable customRuleGroupSelector : RuleGroupSelector.
Variable customRuleSelector : RuleSelector.
Variable customResultFormatter : ResultFormatter.

Definition customPlugin1 : FizzBuzzPlugin :=
  mkPlugin (Some [customRuleGroupSelector]) (Some [customRuleSelector]) None
           (Some [customResultFormatter]).

(** Lines 187-198: the string that the script prints. *)
Definition scriptResult : M string :=
  fizzBuzz 10 50 2 (Some [customPlugin1])
           (Some (fun num => "NotDivisible-" +:+ toString num))
           (Some (join "|")).

End Script.


(** ** Specification-side definitions *)

(** A rule fires for a number when its filter lets it through and it
    matches. *)
Definition fires (i : Z) (rule : FizzBuzzRule) : bool :=
  negb (filteredOut rule i) && evaluateRule rule i None.

(** The rule of a rule set that the specification selects: the first
    firing rule of the sorted sequence without adjacent duplicates. *)
Definition firstMatch (i : Z) (rules : list FizzBuzzRule) : option FizzBuzzRule :=
  List.find (fires i) (removeDuplicates (sortRules rules)).

(** The rule that the specification lets speak for a number: the first
    match of the first rule set, in collection order, whose condition holds
    and that has a match. *)
Fixpoint winner (i : Z) (h : gmap positive (list FizzBuzzRule)) (ruleSets : list RuleSet)
  : option FizzBuzzRule :=
  match ruleSets with
  | [] => None
  | ruleSet :: rest =>
    if set_condition ruleSet i None then
      match firstMatch i (h !!! set_rules ruleSet) with
      | Some rule => Some rule
      | None => winner i h rest
      end
    else winner i h rest
  end.

(** Removal of adjacent duplicates, by recursion on the sequence. *)
Fixpoint dropRepeats (previous : FizzBuzzRule) (rules : list FizzBuzzRule) : list FizzBuzzRule :=
  match rules with
  | [] => []
  | rule :: rest =>
    if sameRule rule previous then dropRepeats rule rest
    else rule :: dropRepeats rule rest
  end.

(** The rules of one priority, in sequence order. *)
Definition withPriority (p : Z) (rules : list FizzBuzzRule) : list FizzBuzzRule :=
  List.filter (fun rule => priorityOf rule =? p) rules.

Definition priorityLe (a b : FizzBuzzRule) : Prop := priorityOf a <= priorityOf b.

(** The transformers that a sequence of groups contributes. *)
Definition transformersOf (groups : list TaggedRuleGroup) : list ResultTransformer :=
  omap group_resultTransformer groups.

(** The decorators that a sequence of groups contributes. *)
Definition decoratorsOf (groups : list TaggedRuleGroup) : list RuleDecorator :=
  flat_map (fun group => default [] (decorators group)) groups.

(** The events of a rule as trace entries. *)
Definition eventsOf (i : Z) (rule : FizzBuzzRule) : list (EventHandler * Z) :=
  map (fun event => (event, i)) (default [] (events rule)).

(** The label text of lines 146-150. *)
Definition labelText (ruleTag body : string) : string :=
  "[" +:+ ruleTag +:+ ": " +:+ body +:+ "]".

(** The groups, among those collected, that contain a rule. *)
Definition groupsWith (h : gmap positive (list FizzBuzzRule)) (rule : FizzBuzzRule)
  (groups : list TaggedRuleGroup) : list TaggedRuleGroup :=
  List.filter (groupIncludes h rule) groups.

(** The tag of a rule: that of the first collected group containing it. *)
Definition tagOf (h : gmap positive (list FizzBuzzRule)) (rule : FizzBuzzRule)
  (groups : list TaggedRuleGroup) : string :=
  match List.find (groupIncludes h rule) groups with
  | Some group => tag group
  | None => "Default"
  end.

(** The label body: the transformers of the containing groups folded over
    an output string. *)
Definition bodyOf (h : gmap positive (list FizzBuzzRule)) (i : Z) (rule : FizzBuzzRule)
  (groups : list TaggedRuleGroup) (out : string) : string :=
  fold_left (fun body transformer => transformer body i None)
            (transformersOf (groupsWith h rule groups)) out.

(** What [labelRule] comes to, as a function of the arrays. *)
Definition labelOutcome (h : gmap positive (list FizzBuzzRule)) (i : Z)
  (groups : list TaggedRuleGroup) (rule : FizzBuzzRule) (result : string) : Completion string :=
  match decoratorsOf (groupsWith h rule groups) with
  | [] => Normal (result +:+ labelText (tagOf h rule groups) (bodyOf h i rule groups (output rule)))
  | _ :: _ => Throw TypeError
  end.

(** The arrays that the evaluation of a number sorts: those of the rule
    sets whose condition holds, up to the first one with a match. *)
Fixpoint activated (i : Z) (h : gmap positive (list FizzBuzzRule)) (ruleSets : list RuleSet)
  : list ArrayRef :=
  match ruleSets with
  | [] => []
  | ruleSet :: rest =>
    if set_condition ruleSet i None then
      set_rules ruleSet ::
        match firstMatch i (h !!! set_rules ruleSet) with
        | Some _ => []
        | None => activated i h rest
        end
    else activated i h rest
  end.

(** [h] is [h0] with some of its arrays sorted. *)
Definition settled (h0 h : gmap positive (list FizzBuzzRule)) : Prop :=
  ∀ l, h !! l = h0 !! l ∨ h !! l = sortRules <$> h0 !! l.

(** Sorting a sequence of arrays in place, one after the other. *)
Definition sortAll (ls : list ArrayRef) (h : gmap positive (list FizzBuzzRule))
  : gmap positive (list FizzBuzzRule) :=
  fold_left (fun h' l => alter sortRules l h') ls h.

(** Rule objects are told apart by their identity. *)
Definition identified (rules : list FizzBuzzRule) : Prop :=
  ∀ a b, a ∈ rules → b ∈ rules → ident a = ident b → a = b.

(** Evaluating a sequence of numbers one after the other. *)
Fixpoint evaluateEach (evaluate : Z → M string) (numbers : list Z) : M (list string) :=
  match numbers with
  | [] => ret []
  | num :: rest =>
    (let* label := evaluate num in
     let* labels := evaluateEach evaluate rest in
     ret (label :: labels))%js
  end.

(** The numbers of a run. *)
Definition numbersOf (start end_ step : Z) : list Z :=
  map (numberAt start step) (seq 0 (Z.to_nat (ceilDiv (end_ - start + 1) step))).

(** The outcome of a number as a function of the arrays at the start. *)
Definition outcomeOf (groupSelectors : list RuleGroupSelector) (ruleSelectors0 : list RuleSelector)
  (defaultOutput : Z → string) (h : gmap positive (list FizzBuzzRule)) (i : Z)
  : Completion string :=
  match winner i h (collectRuleSets ruleSelectors0 i) with
  | Some rule => labelOutcome h i (collectGroups groupSelectors i) rule ""
  | None => Normal (defaultOutput i)
  end.

(** All outcomes, up to the first exception. *)
Fixpoint allNormal {A} (outcomes : list (Completion A)) : Completion (list A) :=
  match outcomes with
  | [] => Normal []
  | Normal a :: rest =>
    match allNormal rest with
    | Normal l => Normal (a :: l)
    | Throw e => Throw e
    end
  | Throw e :: _ => Throw e
  end.

(** A group without its [selectBehavior]. *)
Definition eraseBehavior (group : TaggedRuleGroup) : TaggedRuleGroup :=
  mkGroup (tag group) (group_rules group) SelectAll (decorators group)
          (group_resultTransformer group).

(** Two group selectors that return the same groups up to [selectBehavior]. *)
Definition sameUpToBehavior (s1 s2 : RuleGroupSelector) : Prop :=
  ∀ i context,
    option_map (map eraseBehavior) (s1 i context) = option_map (map eraseBehavior) (s2 i context).

(** Two plugins that differ at most in their [ruleGroupModifiers] and in
    the [selectBehavior] of the groups their selectors return. *)
Definition sameUpToInertFields (p1 p2 : FizzBuzzPlugin) : Prop :=
  option_Forall2 (Forall2 sameUpToBehavior) (ruleGroupSelectors p1) (ruleGroupSelectors p2)
  ∧ ruleSelectors p1 = ruleSelectors p2
  ∧ resultFormatters p1 = resultFormatters p2.

(** A rule without its own [resultTransformer]. *)
Definition eraseTransformer (rule : FizzBuzzRule) : FizzBuzzRule :=
  mkRule (ident rule) (evaluator rule) (rule_condition rule) (output rule) (events rule)
         (rule_filter rule) (priority rule) None.

Definition eraseArrays (h : gmap positive (list FizzBuzzRule)) : gmap positive (list FizzBuzzRule) :=
  map eraseTransformer <$> h.

(** The events that the evaluation of a number fires, as a function of
    the arrays at the start. *)
Definition firedAt (ruleSelectors0 : list RuleSelector) (h : gmap positive (list FizzBuzzRule))
  (i : Z) : list (EventHandler * Z) :=
  match winner i h (collectRuleSets ruleSelectors0 i) with
  | Some rule => eventsOf i rule
  | None => []
  end.

(** No element has the identity of the one just before it. *)
Fixpoint distinctFrom (previous : FizzBuzzRule) (rules : list FizzBuzzRule) : Prop :=
  match rules with
  | [] => True
  | rule :: rest => ident rule ≠ ident previous ∧ distinctFrom rule rest
  end.

Definition noRepeats (rules : list FizzBuzzRule) : Prop :=
  match rules with
  | [] => True
  | rule :: rest => distinctFrom rule rest
  end.

(** ** A concrete pipeline *)

Definition divisibleBy (d : Z) : RuleEvaluator := fun num _ => num mod d =? 0.

Definition always : RuleEvaluator := fun _ _ => true.

Definition fizzRule : FizzBuzzRule :=
  mkRule 1 (Some (divisibleBy 3)) None "Fizz" None None (Some 1) None.

Definition buzzRule : FizzBuzzRule :=
  mkRule 2 (Some (divisibleBy 5)) None "Buzz" None None (Some 2) None.

(** One array, at address 1, holding Buzz before Fizz. *)
Definition demoStore : Store := mkStore {[ 1%positive := [buzzRule; fizzRule] ]} [].

Definition demoRuleSelector : RuleSelector := fun _ _ => Some [mkRuleSet always 1%positive].

Definition exclaim : ResultTransformer := fun result _ _ => result +:+ "!".

Definition bracket : ResultTransformer := fun result _ _ => "<" +:+ result +:+ ">".

(** Two groups over the array at address 1, each with a transformer. *)
Definition demoGroupSelector : RuleGroupSelector :=
  fun _ _ => Some [mkGroup "Threes" 1%positive SelectAll None (Some exclaim);
                   mkGroup "Again" 1%positive SelectFirst None (Some bracket)].

Definition withOutput (out : string) (rule : FizzBuzzRule) : FizzBuzzRule :=
  mkRule (ident rule) (evaluator rule) (rule_condition rule) out (events rule)
         (rule_filter rule) (priority rule) (rule_resultTransformer rule).

Definition shout : RuleDecorator := fun rule _ => withOutput (output rule +:+ "!") rule.

Definition twice : RuleDecorator := fun rule _ => withOutput (output rule +:+ output rule) rule.

(** A group over the array at address 1 with two decorators. *)
Definition decoratedGroupSelector : RuleGroupSelector :=
  fun _ _ => Some [mkGroup "Loud" 1%positive SelectAll (Some [shout; twice]) None].

(** The demo groups with other [selectBehavior]s, and a plugin with a
    group modifier. *)
Definition otherGroupSelector : RuleGroupSelector :=
  fun _ _ => Some [mkGroup "Threes" 1%positive SelectLast None (Some exclaim);
                   mkGroup "Again" 1%positive SelectAll None (Some bracket)].

Definition demoPlugin : FizzBuzzPlugin :=
  mkPlugin (Some [demoGroupSelector]) (Some [demoRuleSelector]) None None.

Definition otherPlugin : FizzBuzzPlugin :=
  mkPlugin (Some [otherGroupSelector]) (Some [demoRuleSelector])
           (Some [fun _ _ => []]) None.

(** The demo store where Fizz carries a transformer of its own. *)
Definition transformedStore : Store :=
  mkStore {[ 1%positive :=
               [buzzRule;
                mkRule 1 (Some (divisibleBy 3)) None "Fizz" None None (Some 1) (Some bracket)] ]}
          [].

(** A rule with two events, alone in the array at address 2. *)
Definition bellRule : FizzBuzzRule :=
  mkRule 5 (Some (divisibleBy 4)) None "Bell" (Some ["ring"; "log"]) None None None.

Definition bellStore : Store := mkStore {[ 2%positive := [bellRule] ]} [].

Definition bellPlugin : FizzBuzzPlugin :=
  mkPlugin None (Some [fun _ _ => Some [mkRuleSet always 2%positive]]) None None.

(** Two rules of equal priority that both match multiples of 6. *)
Definition sixRule : FizzBuzzRule :=
  mkRule 6 (Some (divisibleBy 6)) None "Six" None None (Some 1) None.

(** The demo plugin cut in two, with a result formatter and a group
    modifier added. *)
Definition splitPlugins : list FizzBuzzPlugin :=
  [mkPlugin (Some [demoGroupSelector]) None None (Some [join "|"]);
   mkPlugin None (Some [demoRuleSelector]) (Some [fun _ _ => []]) None].

(** A rule with neither an evaluator nor a condition. *)
Definition bareRule : FizzBuzzRule := mkRule 3 None None "Never" None None None None.

(** A rule with only the per-rule condition. *)
Definition legacyRule : FizzBuzzRule :=
  mkRule 4 None (Some (divisibleBy 7)) "Seven" None None None None.

(** ** The sort *)

Lemma insertBy_perm (a : FizzBuzzRule) l : insertBy comparePriority a l ≡ₚ a :: l.
Proof.
  induction l as [|b l IH]; simpl; [done|].
  destruct (comparePriority a b <=? 0); [done|].
  rewrite IH. apply Permutation_swap.
Qed.

Lemma sortRules_perm l : sortRules l ≡ₚ l.
Proof.
  induction l as [|a l IH]; simpl; [done|].
  unfold sortRules in *. simpl. rewrite insertBy_perm. by rewrite IH.
Qed.

Lemma insertBy_sorted a l :
  StronglySorted priorityLe l → StronglySorted priorityLe (insertBy comparePriority a l).
Proof.
  induction 1 as [|b l Hs IH Hb]; simpl.
  - repeat constructor.
  - destruct (Z.leb_spec (comparePriority a b) 0) as [Hle|Hgt].
    + constructor; [by constructor|].
      unfold comparePriority in Hle.
      constructor; [unfold priorityLe; lia|].
      eapply Forall_impl; [exact Hb|]. unfold priorityLe. intros; lia.
    + constructor; [done|].
      rewrite insertBy_perm. constructor; [|done].
      unfold comparePriority in Hgt. unfold priorityLe. lia.
Qed.

Lemma sortRules_sorted l : StronglySorted priorityLe (sortRules l).
Proof.
  induction l as [|a l IH]; [constructor|].
  unfold sortRules in *. simpl. by apply insertBy_sorted.
Qed.

Lemma insertBy_head a l :
  Forall (priorityLe a) l → insertBy comparePriority a l = a :: l.
Proof.
  destruct 1 as [|b l Hb _]; simpl; [done|].
  unfold priorityLe in Hb. unfold comparePriority.
  destruct (Z.leb_spec (priorityOf a - priorityOf b) 0); [done|lia].
Qed.

Lemma sortRules_sorted_id l : StronglySorted priorityLe l → sortRules l = l.
Proof.
  induction 1 as [|a l Hs IH Ha]; [done|].
  unfold sortRules in *. simpl. rewrite IH. by apply insertBy_head.
Qed.

Lemma sortRules_idem l : sortRules (sortRules l) = sortRules l.
Proof. apply sortRules_sorted_id, sortRules_sorted. Qed.

Lemma insertBy_withPriority p a l :
  StronglySorted priorityLe l →
  withPriority p (insertBy comparePriority a l) = withPriority p (a :: l).
Proof.
  induction 1 as [|b l Hs IH Hb]; [done|].
  simpl. destruct (Z.leb_spec (comparePriority a b) 0) as [Hle|Hgt]; [done|].
  unfold withPriority in *. simpl in *. rewrite IH.
  unfold comparePriority in Hgt.
  destruct (Z.eqb_spec (priorityOf b) p), (Z.eqb_spec (priorityOf a) p); try done.
  lia.
Qed.

Lemma sortRules_stable p l : withPriority p (sortRules l) = withPriority p l.
Proof.
  induction l as [|a l IH]; [done|].
  unfold sortRules in *. simpl.
  rewrite insertBy_withPriority by apply sortRules_sorted.
  unfold withPriority in *. simpl. by rewrite IH.
Qed.

(** ** The removal of duplicates *)

Lemma filterFrom_dropRepeats (pre : list FizzBuzzRule) previous l :
  filterFrom
    (fun rule index =>
       Nat.eqb index 0
       || negb (match (pre ++ previous :: l) !! (index - 1)%nat with
                | Some earlier => sameRule rule earlier
                | None => false
                end))
    (S (length pre)) l
  = dropRepeats previous l.
Proof.
  revert pre previous. induction l as [|b l IH]; intros pre previous; [done|].
  simpl. rewrite Nat.sub_0_r.
  rewrite (list_lookup_middle pre (b :: l) previous (length pre)) by done.
  specialize (IH (pre ++ [previous]) b).
  rewrite length_app in IH. simpl in IH.
  replace (length pre + 1)%nat with (S (length pre)) in IH by lia.
  rewrite <- app_assoc in IH. simpl in IH. rewrite IH.
  by destruct (sameRule b previous).
Qed.

Lemma removeDuplicates_cons a l : removeDuplicates (a :: l) = a :: dropRepeats a l.
Proof.
  unfold removeDuplicates, filterIndexed. simpl. f_equal.
  apply (filterFrom_dropRepeats [] a l).
Qed.

(** ** Arrays under sorting *)

Lemma lookup_total_sorted (h : gmap positive (list FizzBuzzRule)) l :
  alter sortRules l h !!! l = sortRules (h !!! l).
Proof.
  rewrite lookup_total_alter_eq, lookup_total_alt. by destruct (h !! l).
Qed.

Lemma settled_refl h : settled h h.
Proof. intros l. by left. Qed.

Lemma settled_sort h0 h l : settled h0 h → settled h0 (alter sortRules l h).
Proof.
  intros Hs l'. rewrite lookup_alter. case_decide as Hl; [subst l'|apply Hs].
  destruct (Hs l) as [-> | ->]; [by right|].
  right. destruct (h0 !! l); simpl; [|done]. by rewrite sortRules_idem.
Qed.

Lemma settled_trans h0 h1 h2 : settled h0 h1 → settled h1 h2 → settled h0 h2.
Proof.
  intros H01 H12 l. destruct (H12 l) as [-> | ->]; [apply H01|].
  destruct (H01 l) as [-> | ->]; [by right|].
  right. destruct (h0 !! l); simpl; [|done]. by rewrite sortRules_idem.
Qed.

Lemma settled_total_sort h0 h l : settled h0 h → sortRules (h !!! l) = sortRules (h0 !!! l).
Proof.
  intros Hs. rewrite !lookup_total_alt.
  destruct (Hs l) as [-> | ->]; [done|].
  destruct (h0 !! l); simpl; [|done]. by rewrite sortRules_idem.
Qed.

Lemma settled_total_perm h0 h l : settled h0 h → h !!! l ≡ₚ h0 !!! l.
Proof.
  intros Hs. rewrite !lookup_total_alt.
  destruct (Hs l) as [-> | ->]; [done|].
  destruct (h0 !! l); simpl; [|done]. apply sortRules_perm.
Qed.

Lemma includes_perm l l' rule : l ≡ₚ l' → includes l rule = includes l' rule.
Proof.
  unfold includes. induction 1 as [|a l l' _ IH|a b l|l1 l2 l3 _ IH1 _ IH2]; simpl.
  - done.
  - by rewrite IH.
  - by destruct (sameRule rule a), (sameRule rule b).
  - by rewrite IH1.
Qed.

Lemma groupIncludes_settled h0 h rule group :
  settled h0 h → groupIncludes h rule group = groupIncludes h0 rule group.
Proof. intros Hs. unfold groupIncludes. by apply includes_perm, settled_total_perm. Qed.

Lemma groupsWith_settled h0 h rule groups :
  settled h0 h → groupsWith h rule groups = groupsWith h0 rule groups.
Proof.
  intros Hs. unfold groupsWith. induction groups as [|g groups IH]; [done|].
  simpl. by rewrite IH, (groupIncludes_settled h0 h).
Qed.

Lemma tagOf_settled h0 h rule groups :
  settled h0 h → tagOf h rule groups = tagOf h0 rule groups.
Proof.
  intros Hs. unfold tagOf. induction groups as [|g groups IH]; [done|].
  simpl. rewrite (groupIncludes_settled h0 h) by done.
  by destruct (groupIncludes h0 rule g).
Qed.

Lemma labelOutcome_settled h0 h i groups rule result :
  settled h0 h → labelOutcome h i groups rule result = labelOutcome h0 i groups rule result.
Proof.
  intros Hs. unfold labelOutcome, bodyOf.
  by rewrite (groupsWith_settled h0 h), (tagOf_settled h0 h).
Qed.

(** ** The helpers, run *)

Lemma forEach_emit i evs σ :
  forEach (fun event => emit event i) evs σ
  = (Normal tt, mkStore (arrays σ) (trace σ ++ map (fun event => (event, i)) evs)).
Proof.
  revert σ. induction evs as [|e evs IH]; intros σ; simpl.
  - rewrite app_nil_r. by destruct σ.
  - unfold bind. simpl. rewrite IH. simpl. by rewrite <- app_assoc.
Qed.

Lemma applyRuleEvents_run rule i σ :
  applyRuleEvents rule i σ = (Normal tt, mkStore (arrays σ) (trace σ ++ eventsOf i rule)).
Proof.
  unfold applyRuleEvents, eventsOf. destruct (events rule); simpl.
  - apply forEach_emit.
  - rewrite app_nil_r. by destruct σ.
Qed.

Lemma reduce_applyDecorators ds rule :
  reduce (fun acc decorator index =>
            applyDecorators acc (DecoratorFunction decorator) (Some (Z.of_nat index))) ds rule
  = match ds with
    | [] => Normal rule
    | _ :: _ => Throw TypeError
    end.
Proof. by destruct ds. Qed.

Lemma find_filter {A} (p : A → bool) l : List.find p (List.filter p l) = List.find p l.
Proof.
  induction l as [|a l IH]; [done|]. simpl.
  destruct (p a) eqn:E; simpl; [by rewrite E|done].
Qed.

Lemma flat_map_transformers groups :
  flat_map (fun group => match group_resultTransformer group with
                         | Some t => [t]
                         | None => []
                         end) groups
  = transformersOf groups.
Proof.
  unfold transformersOf. induction groups as [|g groups IH]; [done|].
  simpl. rewrite IH. by destruct (group_resultTransformer g).
Qed.

Lemma labelRule_run i groups rule result σ :
  labelRule i groups rule result σ = (labelOutcome (arrays σ) i groups rule result, σ).
Proof.
  unfold labelRule, labelOutcome, bind, getArrays, lift, ret. simpl.
  rewrite reduce_applyDecorators.
  change (flat_map _ (List.filter (groupIncludes (arrays σ) rule) groups))
    with (decoratorsOf (groupsWith (arrays σ) rule groups)).
  destruct (decoratorsOf (groupsWith (arrays σ) rule groups)); [|done].
  unfold getRuleTag, applyResultTransformer, tagOf, bodyOf, labelText.
  rewrite find_filter, flat_map_transformers. done.
Qed.

Lemma forRules_run i groups rules result σ :
  forRules i groups rules result σ
  = match List.find (fires i) rules with
    | Some rule =>
      (labelOutcome (arrays σ) i groups rule result,
       mkStore (arrays σ) (trace σ ++ eventsOf i rule))
    | None => (Normal result, σ)
    end.
Proof.
  induction rules as [|rule rules IH]; [done|].
  simpl. unfold fires at 1.
  destruct (filteredOut rule i); simpl; [done|].
  destruct (evaluateRule rule i None); simpl; [|done].
  unfold bind. rewrite applyRuleEvents_run, labelRule_run. done.
Qed.

Lemma labelOutcome_nonempty h i groups rule s :
  labelOutcome h i groups rule "" = Normal s → String.eqb s "" = false.
Proof.
  unfold labelOutcome. destruct (decoratorsOf _); [|done].
  intros [= <-]. done.
Qed.

(** ** The loops, run *)

Lemma forRuleSets_run i groups ruleSets h0 σ :
  settled h0 (arrays σ) →
  forRuleSets i groups ruleSets "" σ
  = (match winner i h0 ruleSets with
     | Some rule => labelOutcome h0 i groups rule ""
     | None => Normal ""
     end,
     mkStore (sortAll (activated i h0 ruleSets) (arrays σ))
             (trace σ ++ match winner i h0 ruleSets with
                         | Some rule => eventsOf i rule
                         | None => []
                         end)).
Proof.
  revert σ. induction ruleSets as [|ruleSet rest IH]; intros σ Hs; simpl.
  - rewrite app_nil_r. by destruct σ.
  - destruct (set_condition ruleSet i None); [|by apply IH].
    unfold bind at 1. simpl. unfold bind at 1. simpl.
    rewrite lookup_total_sorted, (settled_total_sort h0) by done.
    unfold bind. rewrite forRules_run. simpl.
    unfold firstMatch.
    destruct (List.find (fires i) (removeDuplicates (sortRules (h0 !!! set_rules ruleSet))))
      as [rule|].
    + cbv beta iota.
      rewrite (labelOutcome_settled _ _ i groups rule "" (settled_sort _ _ (set_rules ruleSet) Hs)).
      destruct (labelOutcome h0 i groups rule "") as [s|e] eqn:E; [|done].
      by rewrite (labelOutcome_nonempty _ _ _ _ _ E).
    + simpl. rewrite IH by by apply settled_sort. done.
Qed.

Lemma fold_left_push {A B} (f : A → list B) l init :
  fold_left (fun acc a => acc ++ f a) l init = init ++ flat_map f l.
Proof.
  revert init. induction l as [|a l IH]; intros init; simpl.
  - by rewrite app_nil_r.
  - by rewrite IH, app_assoc.
Qed.

Lemma collectGroups_flat_map selectors i :
  collectGroups selectors i = flat_map (fun selector => default [] (selector i None)) selectors.
Proof. exact (fold_left_push (fun selector => default [] (selector i None)) selectors []). Qed.

Lemma collectRuleSets_flat_map selectors i :
  collectRuleSets selectors i = flat_map (fun selector => default [] (selector i None)) selectors.
Proof. exact (fold_left_push (fun selector => default [] (selector i None)) selectors []). Qed.

Lemma applyRules_run groupSelectors ruleSelectors defaultOutput i σ :
  applyRules groupSelectors ruleSelectors defaultOutput i σ
  = (match winner i (arrays σ) (collectRuleSets ruleSelectors i) with
     | Some rule => labelOutcome (arrays σ) i (collectGroups groupSelectors i) rule ""
     | None => Normal (defaultOutput i)
     end,
     mkStore (sortAll (activated i (arrays σ) (collectRuleSets ruleSelectors i)) (arrays σ))
             (trace σ ++ match winner i (arrays σ) (collectRuleSets ruleSelectors i) with
                         | Some rule => eventsOf i rule
                         | None => []
                         end)).
Proof.
  unfold applyRules, bind.
  rewrite (forRuleSets_run _ _ _ (arrays σ)) by apply settled_refl.
  destruct (winner i (arrays σ) (collectRuleSets ruleSelectors i)) as [rule|]; [|done].
  destruct (labelOutcome _ _ _ rule "") as [s|e] eqn:E; [|done].
  by rewrite (labelOutcome_nonempty _ _ _ _ _ E).
Qed.

(** ** First matches *)

Lemma find_Some_split {A} (p : A → bool) l x :
  List.find p l = Some x
  ↔ ∃ before after, l = before ++ x :: after ∧ p x = true ∧ Forall (fun y => p y = false) before.
Proof.
  split.
  - induction l as [|a l IH]; [done|]. simpl.
    destruct (p a) eqn:E.
    + intros [= ->]. by exists [], l.
    + intros (before & after & -> & Hx & Hb)%IH.
      exists (a :: before), after. by repeat constructor.
  - intros (before & after & -> & Hx & Hb).
    induction Hb as [|a before Ha _ IH]; simpl.
    + by rewrite Hx.
    + by rewrite Ha.
Qed.


Lemma StronglySorted_sublist {A} (R : A → A → Prop) l1 l2 :
  l1 `sublist_of` l2 → StronglySorted R l2 → StronglySorted R l1.
Proof.
  induction 1 as [|x l1 l2 Hsub IH|x l1 l2 Hsub IH]; intros Hs.
  - constructor.
  - apply StronglySorted_cons in Hs as [Hx Hs].
    apply StronglySorted_cons. split; [|by apply IH].
    rewrite Forall_forall in *. intros y Hy. apply Hx. by eapply elem_of_sublist.
  - apply StronglySorted_cons in Hs as [_ Hs]. by apply IH.
Qed.

Lemma dropRepeats_sublist previous l : dropRepeats previous l `sublist_of` l.
Proof.
  revert previous. induction l as [|b l IH]; intros previous; simpl; [constructor|].
  destruct (sameRule b previous); [by apply sublist_cons|by apply sublist_skip].
Qed.

Lemma removeDuplicates_sublist l : removeDuplicates l `sublist_of` l.
Proof.
  destruct l as [|a l]; [constructor|].
  rewrite removeDuplicates_cons. apply sublist_skip, dropRepeats_sublist.
Qed.

Lemma sameRule_true a b : sameRule a b = true ↔ ident a = ident b.
Proof. unfold sameRule. apply Pos.eqb_eq. Qed.

Lemma dropRepeats_keeps previous l x :
  identified l → x ∈ l → x ∈ dropRepeats previous l ∨ ident x = ident previous.
Proof.
  revert previous. induction l as [|b l IH]; intros previous Hid Hx; [by apply elem_of_nil in Hx|].
  assert (identified l) as Hid'.
  { intros u v Hu Hv. apply Hid; by right. }
  assert (x = b → x ∈ dropRepeats previous (b :: l) ∨ ident x = ident previous) as Hhead.
  { intros ->. simpl. destruct (sameRule b previous) eqn:E.
    - right. by apply sameRule_true.
    - left. by left. }
  apply elem_of_cons in Hx as [Hx|Hx]; [by apply Hhead|].
  destruct (IH b Hid' Hx) as [Hin|Hsame].
  - left. simpl. destruct (sameRule b previous); [done|by right].
  - apply Hhead, Hid; [by right|by left|done].
Qed.

Lemma removeDuplicates_keeps l x : identified l → x ∈ l → x ∈ removeDuplicates l.
Proof.
  destruct l as [|a l]; [done|]. intros Hid Hx.
  rewrite removeDuplicates_cons.
  apply elem_of_cons in Hx as [->|Hx]; [by left|].
  assert (identified l) as Hid'.
  { intros u v Hu Hv. apply Hid; by right. }
  destruct (dropRepeats_keeps a l x Hid' Hx) as [Hin|Hsame]; [by right|].
  assert (x = a) as -> by (apply Hid; [by right|by left|done]).
  by left.
Qed.

Lemma identified_perm l l' : l ≡ₚ l' → identified l → identified l'.
Proof.
  intros Hp Hid a b Ha Hb. apply Hid; by rewrite Hp.
Qed.

Lemma firstMatch_elem i rules rule :
  firstMatch i rules = Some rule → rule ∈ rules ∧ fires i rule = true.
Proof.
  unfold firstMatch. intros (before & after & Heq & Hf & _)%find_Some_split.
  split; [|done].
  rewrite <- (sortRules_perm rules).
  eapply elem_of_sublist; [|apply removeDuplicates_sublist].
  rewrite Heq. set_solver.
Qed.

Lemma firstMatch_minimal i rules rule other :
  identified rules → firstMatch i rules = Some rule → other ∈ rules → fires i other = true →
  priorityOf rule <= priorityOf other.
Proof.
  intros Hid Hfm Hin Hfire. unfold firstMatch in Hfm.
  apply find_Some_split in Hfm as (before & after & Heq & _ & Hbefore).
  assert (other ∈ removeDuplicates (sortRules rules)) as Hkept.
  { apply removeDuplicates_keeps.
    - eapply identified_perm; [symmetry; apply sortRules_perm|done].
    - by rewrite sortRules_perm. }
  assert (StronglySorted priorityLe (before ++ rule :: after)) as Hsorted.
  { rewrite <- Heq. eapply StronglySorted_sublist; [apply removeDuplicates_sublist|].
    apply sortRules_sorted. }
  rewrite Heq in Hkept. apply elem_of_app in Hkept as [Hb|Hr].
  - rewrite Forall_forall in Hbefore. specialize (Hbefore _ Hb). congruence.
  - apply StronglySorted_app_1_r, StronglySorted_cons in Hsorted as [Hle _].
    apply elem_of_cons in Hr as [->|Ha]; [lia|].
    rewrite Forall_forall in Hle. by apply Hle.
Qed.

Lemma firstMatch_exists i rules other :
  identified rules → other ∈ rules → fires i other = true → is_Some (firstMatch i rules).
Proof.
  intros Hid Hin Hfire. unfold firstMatch.
  destruct (List.find _ _) eqn:E; [done|].
  pose proof (find_none _ _ E other) as Hnone.
  rewrite Hnone in Hfire; [done|].
  apply list_elem_of_In, removeDuplicates_keeps.
  - eapply identified_perm; [symmetry; apply sortRules_perm|done].
  - by rewrite sortRules_perm.
Qed.


(** ** Rule selection *)



(** ** Labels *)

Lemma labelRule_normal i groups rule result σ label :
  fst (labelRule i groups rule result σ) = Normal label →
  decoratorsOf (groupsWith (arrays σ) rule groups) = []
  ∧ label = result +:+ labelText (tagOf (arrays σ) rule groups)
                                 (bodyOf (arrays σ) i rule groups (output rule)).
Proof.
  rewrite labelRule_run. unfold labelOutcome. simpl.
  destruct (decoratorsOf _); [|done]. by intros [= <-].
Qed.



(** ** Decorators *)

(** C3. A group with the decorators [D1; D2] around a matching rule: the
    helper [applyDecorators] folds an array of decorators from the left,
    [D2 (D1 rule)], but the evaluator hands it one decorator at a time
    where it expects the array, and the evaluation of the number ends in a
    TypeError before any decorator runs. *)
Theorem decorators_of_a_group_raise :
  applyDecorators fizzRule (DecoratorArray [shout; twice]) None
  = Normal (twice (shout fizzRule None) None)
  ∧ output (twice (shout fizzRule None) None) = "Fizz!Fizz!"
  ∧ fst (applyRules [decoratedGroupSelector] [demoRuleSelector] toString 15 demoStore)
    = Throw TypeError
  ∧ fst (fizzBuzz 15 15 1
           (Some [mkPlugin (Some [decoratedGroupSelector]) (Some [demoRuleSelector]) None None])
           None None demoStore)
    = Throw TypeError.
Proof. repeat split; reflexivity. Qed.

(** ** What an evaluation does to the store *)

Lemma sortAll_lookup ls h l :
  sortAll ls h !! l = if decide (l ∈ ls) then sortRules <$> h !! l else h !! l.
Proof.
  revert h. induction ls as [|a ls IH]; intros h.
  - by rewrite decide_False by apply not_elem_of_nil.
  - change (sortAll (a :: ls) h) with (sortAll ls (alter sortRules a h)).
    rewrite IH, lookup_alter.
    assert (sortRules <$> (sortRules <$> h !! a) = sortRules <$> h !! a) as Hidem.
    { destruct (h !! a); simpl; [|done]. by rewrite sortRules_idem. }
    destruct (decide (a = l)) as [->|Hne].
    + rewrite Hidem. rewrite (decide_True (P := l ∈ l :: ls)) by by left.
      by case_decide.
    + destruct (decide (l ∈ ls)) as [Hin|Hnin].
      * by rewrite (decide_True (P := l ∈ a :: ls)) by by right.
      * rewrite (decide_False (P := l ∈ a :: ls)); [done|].
        intros [?|?]%elem_of_cons; congruence.
Qed.

Lemma sortAll_settled ls h : settled h (sortAll ls h).
Proof. intros l. rewrite sortAll_lookup. case_decide; [by right|by left]. Qed.

Lemma activated_elem i h ruleSets l :
  l ∈ activated i h ruleSets →
  ∃ ruleSet, ruleSet ∈ ruleSets ∧ set_rules ruleSet = l ∧ set_condition ruleSet i None = true.
Proof.
  induction ruleSets as [|rs rest IH]; simpl; [by intros ?%elem_of_nil|].
  destruct (set_condition rs i None) eqn:Ec.
  - intros [->|Hin]%elem_of_cons.
    + exists rs. split; [by left|done].
    + destruct (firstMatch i (h !!! set_rules rs)); [by apply elem_of_nil in Hin|].
      destruct (IH Hin) as (r & ? & ? & ?). exists r. split; [by right|done].
  - intros Hin. destruct (IH Hin) as (r & ? & ? & ?). exists r. split; [by right|done].
Qed.

Lemma applyRules_arrays groupSelectors ruleSelectors0 defaultOutput i σ :
  arrays (snd (applyRules groupSelectors ruleSelectors0 defaultOutput i σ))
  = sortAll (activated i (arrays σ) (collectRuleSets ruleSelectors0 i)) (arrays σ).
Proof. by rewrite applyRules_run. Qed.

Lemma arrayFromAt_settled {A} (f : nat → M A) count index σ :
  (∀ index' σ', settled (arrays σ') (arrays (snd (f index' σ')))) →
  settled (arrays σ) (arrays (snd (arrayFromAt f count index σ))).
Proof.
  intros Hf. revert index σ. induction count as [|count IH]; intros index σ; simpl.
  - apply settled_refl.
  - unfold bind at 1. specialize (Hf index σ).
    destruct (f index σ) as [[a|e] σ1]; simpl in *; [|done].
    unfold bind. specialize (IH (S index) σ1).
    destruct (arrayFromAt f count (S index) σ1) as [[rest|e] σ2]; simpl in *;
      by eapply settled_trans.
Qed.

Lemma fizzBuzz_settled start end_ step plugins defaultOutput resultFormatter σ :
  settled (arrays σ)
          (arrays (snd (fizzBuzz start end_ step plugins defaultOutput resultFormatter σ))).
Proof.
  unfold fizzBuzz.
  destruct ((step =? 0) && (0 <? end_ - start + 1)); [apply settled_refl|].
  unfold bind, arrayFrom.
  match goal with
  | |- context [arrayFromAt ?f ?c ?n σ] =>
    pose proof (arrayFromAt_settled f c n σ) as Hs;
    destruct (arrayFromAt f c n σ) as [[results|e] σ']
  end; simpl in *; apply Hs; intros index' σ0;
    rewrite applyRules_arrays; apply sortAll_settled.
Qed.

(** C4, as the code has it.  Rules, groups and plugins are values that an
    evaluation only reads.  Evaluating a number sorts in place, by
    ascending priority and stably, the rules array of each rule set that it
    activates (condition true, up to and including the first rule set with
    a match) and leaves every other array as it is: an array whose rule
    sets all have a false condition, or that is already sorted, is
    unchanged, and every array keeps its contents up to order.  Over a
    whole run each array is as before or sorted. *)
Theorem applyRules_sorts_activated_rule_sets
  (groupSelectors : list RuleGroupSelector) (ruleSelectors0 : list RuleSelector)
  (defaultOutput : Z → string) (i : Z) (σ : Store) :
  let ruleSets := collectRuleSets ruleSelectors0 i in
  let σ' := snd (applyRules groupSelectors ruleSelectors0 defaultOutput i σ) in
  (∀ l, l ∈ activated i (arrays σ) ruleSets → arrays σ' !! l = sortRules <$> arrays σ !! l)
  ∧ (∀ l, l ∉ activated i (arrays σ) ruleSets → arrays σ' !! l = arrays σ !! l)
  ∧ (∀ l, (∀ ruleSet, ruleSet ∈ ruleSets → set_rules ruleSet = l →
                      set_condition ruleSet i None = false) →
          arrays σ' !! l = arrays σ !! l)
  ∧ (∀ l, StronglySorted priorityLe (arrays σ !!! l) → arrays σ' !! l = arrays σ !! l)
  ∧ (∀ l, arrays σ' !!! l ≡ₚ arrays σ !!! l)
  ∧ (∀ start end_ step plugins output formatter,
       settled (arrays σ)
               (arrays (snd (fizzBuzz start end_ step plugins output formatter σ)))).
Proof.
  intros ruleSets σ'.
  assert (arrays σ' = sortAll (activated i (arrays σ) ruleSets) (arrays σ)) as Harr
    by apply applyRules_arrays.
  split.
  { intros l Hin. rewrite Harr, sortAll_lookup. by rewrite decide_True. }
  split.
  { intros l Hnin. rewrite Harr, sortAll_lookup. by rewrite decide_False. }
  split.
  { intros l Hfalse. rewrite Harr, sortAll_lookup. rewrite decide_False; [done|].
    intros (rs & Hrs & Hl & Hc)%activated_elem. rewrite (Hfalse rs Hrs Hl) in Hc. done. }
  split.
  { intros l Hsorted. rewrite Harr, sortAll_lookup. case_decide; [|done].
    rewrite lookup_total_alt in Hsorted.
    destruct (arrays σ !! l); simpl in *; [|done]. by rewrite sortRules_sorted_id. }
  split.
  { intros l. apply settled_total_perm. rewrite Harr. apply sortAll_settled. }
  intros. apply fizzBuzz_settled.
Qed.

Lemma applyRules_sorts_activated_rule_sets_witness :
  1%positive ∈ activated 15 (arrays demoStore) (collectRuleSets [demoRuleSelector] 15)
  ∧ arrays (snd (applyRules [] [demoRuleSelector] toString 15 demoStore)) !! 1%positive
    = sortRules <$> arrays demoStore !! 1%positive.
Proof.
  assert (1%positive ∈ activated 15 (arrays demoStore) (collectRuleSets [demoRuleSelector] 15))
    as Hin by (vm_compute; left).
  split; [exact Hin|].
  by apply (applyRules_sorts_activated_rule_sets [] [demoRuleSelector] toString 15 demoStore).
Defined.

(** Evaluating 15 over the array [Buzz; Fizz] leaves it as [Fizz; Buzz]:
    the rules sequence of the rule set is not left unchanged. *)
Lemma applyRules_reorders_rules :
  arrays demoStore !! 1%positive = Some [buzzRule; fizzRule]
  ∧ arrays (snd (applyRules [] [demoRuleSelector] toString 15 demoStore)) !! 1%positive
    = Some [fizzRule; buzzRule]
  ∧ ¬ (∀ groupSelectors ruleSelectors0 defaultOutput i σ l,
         arrays (snd (applyRules groupSelectors ruleSelectors0 defaultOutput i σ)) !! l
         = arrays σ !! l).
Proof.
  split; [reflexivity|]. split; [reflexivity|].
  intros H. specialize (H [] [demoRuleSelector] toString 15 demoStore 1%positive).
  vm_compute in H. discriminate H.
Qed.

(** ** The run *)

Lemma arrayFromAt_evaluateEach (evaluate : Z → M string) start step count index :
  arrayFromAt (fun index' => evaluate (numberAt start step index')) count index
  = evaluateEach evaluate (map (numberAt start step) (seq index count)).
Proof.
  revert index. induction count as [|count IH]; intros index; simpl; [done|].
  by rewrite IH.
Qed.

Lemma firstMatch_settled h0 h i l :
  settled h0 h → firstMatch i (h !!! l) = firstMatch i (h0 !!! l).
Proof. intros Hs. unfold firstMatch. by rewrite (settled_total_sort h0 h). Qed.

Lemma winner_settled h0 h i ruleSets :
  settled h0 h → winner i h ruleSets = winner i h0 ruleSets.
Proof.
  intros Hs. induction ruleSets as [|rs rest IH]; [done|].
  simpl. by rewrite IH, (firstMatch_settled h0 h).
Qed.

Lemma outcomeOf_settled groupSelectors ruleSelectors0 defaultOutput h0 h i :
  settled h0 h →
  outcomeOf groupSelectors ruleSelectors0 defaultOutput h i
  = outcomeOf groupSelectors ruleSelectors0 defaultOutput h0 i.
Proof.
  intros Hs. unfold outcomeOf. rewrite (winner_settled h0 h) by done.
  destruct (winner i h0 _); [|done]. by apply labelOutcome_settled.
Qed.

Lemma applyRules_outcome groupSelectors ruleSelectors0 defaultOutput i σ :
  fst (applyRules groupSelectors ruleSelectors0 defaultOutput i σ)
  = outcomeOf groupSelectors ruleSelectors0 defaultOutput (arrays σ) i.
Proof. by rewrite applyRules_run. Qed.

Lemma applyRules_settled groupSelectors ruleSelectors0 defaultOutput i σ :
  settled (arrays σ) (arrays (snd (applyRules groupSelectors ruleSelectors0 defaultOutput i σ))).
Proof. rewrite applyRules_arrays. apply sortAll_settled. Qed.

Lemma evaluateEach_outcomes groupSelectors ruleSelectors0 defaultOutput h0 numbers σ :
  settled h0 (arrays σ) →
  fst (evaluateEach (applyRules groupSelectors ruleSelectors0 defaultOutput) numbers σ)
  = allNormal (map (outcomeOf groupSelectors ruleSelectors0 defaultOutput h0) numbers).
Proof.
  revert σ. induction numbers as [|num rest IH]; intros σ Hs; [done|].
  simpl. unfold bind at 1.
  pose proof (applyRules_outcome groupSelectors ruleSelectors0 defaultOutput num σ) as Hout.
  pose proof (applyRules_settled groupSelectors ruleSelectors0 defaultOutput num σ) as Hset.
  rewrite (outcomeOf_settled _ _ _ h0) in Hout by done.
  destruct (applyRules _ _ _ num σ) as [[label|e] σ1]; simpl in *; rewrite <- Hout; [|done].
  unfold bind. specialize (IH σ1 (settled_trans _ _ _ Hs Hset)).
  destruct (evaluateEach _ rest σ1) as [[labels|e] σ2]; simpl in *; by rewrite <- IH.
Qed.

Lemma fizzBuzz_evaluateEach start end_ step plugins defaultOutput resultFormatter σ :
  step ≠ 0 →
  fizzBuzz start end_ step plugins defaultOutput resultFormatter σ
  = (let* results :=
       evaluateEach (applyRules (x_ruleGroupSelectors (extractPlugins (default [] plugins)))
                                (x_ruleSelectors (extractPlugins (default [] plugins)))
                                (default toString defaultOutput))
                    (numbersOf start end_ step) in
     ret (default (join " ") resultFormatter results))%js σ.
Proof.
  intros Hstep. unfold fizzBuzz.
  destruct (Z.eqb_spec step 0) as [|_]; [done|]. simpl.
  unfold arrayFrom. by rewrite arrayFromAt_evaluateEach.
Qed.

Lemma fizzBuzz_outcomes start end_ step plugins defaultOutput resultFormatter σ :
  fst (fizzBuzz start end_ step plugins defaultOutput resultFormatter σ)
  = if (step =? 0) && (0 <? end_ - start + 1) then Throw RangeError
    else match allNormal
                 (map (outcomeOf (x_ruleGroupSelectors (extractPlugins (default [] plugins)))
                                 (x_ruleSelectors (extractPlugins (default [] plugins)))
                                 (default toString defaultOutput) (arrays σ))
                      (numbersOf start end_ step)) with
         | Normal results => Normal (default (join " ") resultFormatter results)
         | Throw e => Throw e
         end.
Proof.
  unfold fizzBuzz.
  destruct ((step =? 0) && (0 <? end_ - start + 1)); [done|].
  unfold arrayFrom. rewrite arrayFromAt_evaluateEach. unfold bind.
  rewrite <- (evaluateEach_outcomes _ _ _ (arrays σ) _ σ) by apply settled_refl.
  by destruct (evaluateEach _ _ σ) as [[results|e] σ'].
Qed.


Lemma ceilDiv_bounds a b : 0 < b → (ceilDiv a b - 1) * b < a <= ceilDiv a b * b.
Proof.
  intros Hb. unfold ceilDiv.
  pose proof (Z.div_mod (- a) b ltac:(lia)) as Hdm.
  pose proof (Z.mod_pos_bound (- a) b Hb) as Hmod.
  nia.
Qed.







(** ** The default label *)

Lemma firstMatch_none i rules :
  (∀ rule, rule ∈ rules → fires i rule = false) → firstMatch i rules = None.
Proof.
  intros Hnone. destruct (firstMatch i rules) as [rule|] eqn:E; [|done].
  apply firstMatch_elem in E as [Hin Hf]. rewrite (Hnone rule Hin) in Hf. done.
Qed.

Lemma winner_none i h ruleSets :
  (∀ ruleSet rule, ruleSet ∈ ruleSets → set_condition ruleSet i None = true →
                   rule ∈ h !!! set_rules ruleSet → fires i rule = false) →
  winner i h ruleSets = None.
Proof.
  induction ruleSets as [|rs rest IH]; intros Hnone; [done|]. simpl.
  rewrite IH by (intros ruleSet rule Hin; apply Hnone; by right).
  destruct (set_condition rs i None) eqn:Ec; [|done].
  rewrite firstMatch_none; [done|].
  intros rule Hin. eapply Hnone; [by left|done|done].
Qed.

(** C6. When no rule set produces a label for a number (no collected
    rule set has a true condition, or in those that have one no rule passes
    its filter and matches) the evaluation of the number returns
    [defaultOutput num], and fires no event. *)
Theorem applyRules_default_output
  (groupSelectors : list RuleGroupSelector) (ruleSelectors0 : list RuleSelector)
  (defaultOutput : Z → string) (i : Z) (σ : Store) :
  (∀ ruleSet rule,
     ruleSet ∈ collectRuleSets ruleSelectors0 i →
     set_condition ruleSet i None = true →
     rule ∈ arrays σ !!! set_rules ruleSet →
     filteredOut rule i = true ∨ evaluateRule rule i None = false) →
  fst (applyRules groupSelectors ruleSelectors0 defaultOutput i σ) = Normal (defaultOutput i)
  ∧ trace (snd (applyRules groupSelectors ruleSelectors0 defaultOutput i σ)) = trace σ.
Proof.
  intros Hnone. rewrite applyRules_run. simpl.
  rewrite winner_none; [by rewrite app_nil_r|].
  intros ruleSet rule Hin Hc Hr. unfold fires.
  destruct (Hnone ruleSet rule Hin Hc Hr) as [-> | ->]; [done|].
  by destruct (filteredOut rule i).
Qed.

Lemma applyRules_default_output_witness :
  fst (applyRules [] [demoRuleSelector] toString 13 demoStore) = Normal "13".
Proof.
  apply (applyRules_default_output [] [demoRuleSelector] toString 13 demoStore).
  intros ruleSet rule Hset _ Hrule. right.
  apply list_elem_of_In in Hset. simpl in Hset. destruct Hset as [<-|[]].
  apply list_elem_of_In in Hrule. vm_compute in Hrule.
  destruct Hrule as [<-|[<-|[]]]; reflexivity.
Defined.

(** ** Matching *)

(** C7. A rule matches a number by its evaluator when it has one, else by
    its per-rule condition when it has one; a rule with neither never
    matches, and the loop over the rules passes over it without failing. *)
Theorem evaluateRule_evaluator_then_condition
  (rule : FizzBuzzRule) (num : Z) (context : Context) :
  (∀ ev, evaluator rule = Some ev → evaluateRule rule num context = ev num context)
  ∧ (∀ cond, evaluator rule = None → rule_condition rule = Some cond →
             evaluateRule rule num context = cond num context)
  ∧ (evaluator rule = None → rule_condition rule = None →
     evaluateRule rule num context = false
     ∧ fires num rule = false
     ∧ ∀ groups rest result,
         forRules num groups (rule :: rest) result = forRules num groups rest result).
Proof.
  unfold evaluateRule. split; [by intros ev ->|].
  split; [by intros cond -> ->|].
  intros He Hc. split; [by rewrite He, Hc|].
  split.
  - unfold fires, evaluateRule. rewrite He, Hc. apply andb_false_r.
  - intros groups rest result. simpl. unfold evaluateRule. rewrite He, Hc.
    by destruct (filteredOut rule num).
Qed.

Lemma evaluateRule_evaluator_then_condition_witness :
  evaluateRule fizzRule 9 None = true
  ∧ evaluateRule legacyRule 14 None = true
  ∧ evaluateRule bareRule 14 None = false.
Proof.
  split.
  { rewrite (proj1 (evaluateRule_evaluator_then_condition fizzRule 9 None) (divisibleBy 3));
      reflexivity. }
  split.
  { rewrite (proj1 (proj2 (evaluateRule_evaluator_then_condition legacyRule 14 None))
                   (divisibleBy 7)); reflexivity. }
  apply (proj2 (proj2 (evaluateRule_evaluator_then_condition bareRule 14 None)));
    reflexivity.
Defined.

(** ** The plugins *)

Lemma pushAll_default {A} (array : list A) field : pushAll array field = array ++ default [] field.
Proof. destruct field; simpl; [done|by rewrite app_nil_r]. Qed.

Lemma fold_extractPlugin plugins x :
  fold_left extractPlugin plugins x
  = {| x_ruleGroupSelectors :=
         x_ruleGroupSelectors x ++ flat_map (fun p => default [] (ruleGroupSelectors p)) plugins;
       x_ruleSelectors :=
         x_ruleSelectors x ++ flat_map (fun p => default [] (ruleSelectors p)) plugins;
       x_ruleGroupModifiers :=
         x_ruleGroupModifiers x ++ flat_map (fun p => default [] (ruleGroupModifiers p)) plugins;
       x_resultFormatters :=
         x_resultFormatters x ++ flat_map (fun p => default [] (resultFormatters p)) plugins |}.
Proof.
  revert x. induction plugins as [|p plugins IH]; intros x; simpl.
  - rewrite !app_nil_r. by destruct x.
  - rewrite IH. unfold extractPlugin. simpl. rewrite !pushAll_default, <- !app_assoc. done.
Qed.

(** C8. The aggregation of the plugins yields four sequences: the group
    selectors, the rule selectors, the group modifiers and the result
    formatters, each the concatenation, in plugin order and then in array
    order, of the corresponding field of every plugin; an absent field
    adds nothing and nothing is removed.  The aggregation touches nothing:
    a run over an empty range returns the store it was given. *)
Theorem extractPlugins_concatenates (plugins : list FizzBuzzPlugin) :
  x_ruleGroupSelectors (extractPlugins plugins)
  = concat (map (fun plugin => match ruleGroupSelectors plugin with
                               | Some selectors => selectors
                               | None => []
                               end) plugins)
  ∧ x_ruleSelectors (extractPlugins plugins)
    = concat (map (fun plugin => match ruleSelectors plugin with
                                 | Some selectors => selectors
                                 | None => []
                                 end) plugins)
  ∧ x_ruleGroupModifiers (extractPlugins plugins)
    = concat (map (fun plugin => match ruleGroupModifiers plugin with
                                 | Some modifiers => modifiers
                                 | None => []
                                 end) plugins)
  ∧ x_resultFormatters (extractPlugins plugins)
    = concat (map (fun plugin => match resultFormatters plugin with
                                 | Some formatters => formatters
                                 | None => []
                                 end) plugins)
  ∧ length (x_ruleGroupSelectors (extractPlugins plugins))
    = sum_list (map (fun plugin => length (default [] (ruleGroupSelectors plugin))) plugins)
  ∧ (∀ start defaultOutput resultFormatter σ,
       snd (fizzBuzz start (start - 1) 1 (Some plugins) defaultOutput resultFormatter σ) = σ).
Proof.
  unfold extractPlugins. rewrite fold_extractPlugin. simpl.
  rewrite !flat_map_concat_map.
  repeat split; try done.
  - rewrite <- flat_map_concat_map. induction plugins as [|p plugins IH]; [done|].
    simpl. by rewrite length_app, IH.
  - intros start defaultOutput resultFormatter σ. unfold fizzBuzz. simpl.
    replace (start - 1 - start + 1) with 0 by lia. done.
Qed.

(** ** Fields that the pipeline does not read *)

Lemma groupsWith_eraseBehavior h rule groups :
  groupsWith h rule (map eraseBehavior groups) = map eraseBehavior (groupsWith h rule groups).
Proof.
  unfold groupsWith. induction groups as [|g groups IH]; [done|]. simpl.
  change (groupIncludes h rule (eraseBehavior g)) with (groupIncludes h rule g).
  destruct (groupIncludes h rule g); simpl; by rewrite IH.
Qed.

Lemma decoratorsOf_eraseBehavior groups :
  decoratorsOf (map eraseBehavior groups) = decoratorsOf groups.
Proof.
  unfold decoratorsOf. induction groups as [|g groups IH]; [done|]. simpl. by rewrite IH.
Qed.

Lemma transformersOf_eraseBehavior groups :
  transformersOf (map eraseBehavior groups) = transformersOf groups.
Proof.
  unfold transformersOf. induction groups as [|g groups IH]; [done|]. csimpl.
  by rewrite IH.
Qed.

Lemma tagOf_eraseBehavior h rule groups :
  tagOf h rule (map eraseBehavior groups) = tagOf h rule groups.
Proof.
  unfold tagOf. induction groups as [|g groups IH]; [done|]. simpl.
  change (groupIncludes h rule (eraseBehavior g)) with (groupIncludes h rule g).
  by destruct (groupIncludes h rule g).
Qed.

Lemma labelOutcome_eraseBehavior h i groups rule result :
  labelOutcome h i (map eraseBehavior groups) rule result = labelOutcome h i groups rule result.
Proof.
  unfold labelOutcome, bodyOf.
  by rewrite groupsWith_eraseBehavior, decoratorsOf_eraseBehavior,
             transformersOf_eraseBehavior, tagOf_eraseBehavior.
Qed.

Lemma collectGroups_sameUpToBehavior selectors1 selectors2 i :
  Forall2 sameUpToBehavior selectors1 selectors2 →
  map eraseBehavior (collectGroups selectors1 i) = map eraseBehavior (collectGroups selectors2 i).
Proof.
  rewrite !collectGroups_flat_map.
  induction 1 as [|s1 s2 l1 l2 Hs _ IH]; [done|].
  simpl. rewrite !map_app, IH. f_equal.
  specialize (Hs i None). by destruct (s1 i None), (s2 i None); simplify_eq/=.
Qed.

Lemma applyRules_sameUpToBehavior selectors1 selectors2 ruleSelectors0 defaultOutput i σ :
  Forall2 sameUpToBehavior selectors1 selectors2 →
  applyRules selectors1 ruleSelectors0 defaultOutput i σ
  = applyRules selectors2 ruleSelectors0 defaultOutput i σ.
Proof.
  intros Hs. rewrite !applyRules_run.
  destruct (winner i (arrays σ) (collectRuleSets ruleSelectors0 i)) as [rule|]; [|done].
  f_equal.
  rewrite <- (labelOutcome_eraseBehavior _ _ (collectGroups selectors1 i)).
  rewrite <- (labelOutcome_eraseBehavior _ _ (collectGroups selectors2 i)).
  by rewrite (collectGroups_sameUpToBehavior selectors1 selectors2).
Qed.

Lemma arrayFromAt_ext {A} (f g : nat → M A) count index σ :
  (∀ index' σ', f index' σ' = g index' σ') →
  arrayFromAt f count index σ = arrayFromAt g count index σ.
Proof.
  intros Hfg. revert index σ. induction count as [|count IH]; intros index σ; [done|].
  simpl. unfold bind. rewrite Hfg.
  destruct (g index σ) as [[a|e] σ1]; [|done]. by rewrite IH.
Qed.

Lemma extractPlugins_sameUpToInertFields plugins1 plugins2 :
  Forall2 sameUpToInertFields plugins1 plugins2 →
  Forall2 sameUpToBehavior (x_ruleGroupSelectors (extractPlugins plugins1))
                           (x_ruleGroupSelectors (extractPlugins plugins2))
  ∧ x_ruleSelectors (extractPlugins plugins1) = x_ruleSelectors (extractPlugins plugins2)
  ∧ x_resultFormatters (extractPlugins plugins1) = x_resultFormatters (extractPlugins plugins2).
Proof.
  unfold extractPlugins. rewrite !fold_extractPlugin. simpl.
  induction 1 as [|p1 p2 l1 l2 (Hg & Hr & Hf) _ (IHg & IHr & IHf)]; [done|].
  simpl. rewrite Hr, Hf, IHr, IHf. split; [|done].
  apply Forall2_app; [|done].
  destruct Hg; simpl; [done|constructor].
Qed.

(** C9. The result of a run does not depend on the [selectBehavior] of
    the groups nor on the [ruleGroupModifiers] of the plugins: two lists of
    plugins that differ in these fields only give the same run, result and
    final store. *)
Theorem fizzBuzz_ignores_selectBehavior_and_modifiers
  (start end_ step : Z) (plugins1 plugins2 : list FizzBuzzPlugin)
  (defaultOutput : option (Z → string)) (resultFormatter : option ResultFormatter) (σ : Store) :
  Forall2 sameUpToInertFields plugins1 plugins2 →
  fizzBuzz start end_ step (Some plugins1) defaultOutput resultFormatter σ
  = fizzBuzz start end_ step (Some plugins2) defaultOutput resultFormatter σ.
Proof.
  intros (Hg & Hr & _)%extractPlugins_sameUpToInertFields.
  unfold fizzBuzz. simpl.
  destruct ((step =? 0) && (0 <? end_ - start + 1)); [done|].
  unfold bind, arrayFrom. rewrite Hr.
  erewrite arrayFromAt_ext; [done|].
  intros index' σ'. by apply applyRules_sameUpToBehavior.
Qed.

Lemma fizzBuzz_ignores_selectBehavior_and_modifiers_witness :
  fizzBuzz 10 20 1 (Some [demoPlugin]) None None demoStore
  = fizzBuzz 10 20 1 (Some [otherPlugin]) None None demoStore.
Proof.
  apply fizzBuzz_ignores_selectBehavior_and_modifiers.
  constructor; [|constructor].
  split; [|split; reflexivity].
  constructor. constructor; [|constructor].
  intros i context. reflexivity.
Defined.

Lemma insertBy_eraseTransformer a l :
  insertBy comparePriority (eraseTransformer a) (map eraseTransformer l)
  = map eraseTransformer (insertBy comparePriority a l).
Proof.
  induction l as [|b l IH]; [done|]. simpl.
  change (comparePriority (eraseTransformer a) (eraseTransformer b)) with (comparePriority a b).
  destruct (comparePriority a b <=? 0); simpl; [done|by rewrite IH].
Qed.

Lemma sortRules_eraseTransformer l :
  sortRules (map eraseTransformer l) = map eraseTransformer (sortRules l).
Proof.
  unfold sortRules, sortBy. induction l as [|a l IH]; [done|].
  simpl. by rewrite IH, insertBy_eraseTransformer.
Qed.

Lemma dropRepeats_eraseTransformer previous l :
  dropRepeats (eraseTransformer previous) (map eraseTransformer l)
  = map eraseTransformer (dropRepeats previous l).
Proof.
  revert previous. induction l as [|b l IH]; intros previous; [done|]. simpl.
  change (sameRule (eraseTransformer b) (eraseTransformer previous)) with (sameRule b previous).
  destruct (sameRule b previous); simpl; by rewrite IH.
Qed.

Lemma removeDuplicates_eraseTransformer l :
  removeDuplicates (map eraseTransformer l) = map eraseTransformer (removeDuplicates l).
Proof.
  destruct l as [|a l]; [done|].
  change (map eraseTransformer (a :: l)) with (eraseTransformer a :: map eraseTransformer l).
  rewrite !removeDuplicates_cons, dropRepeats_eraseTransformer. reflexivity.
Qed.

Lemma find_fires_eraseTransformer i l :
  List.find (fires i) (map eraseTransformer l) = eraseTransformer <$> List.find (fires i) l.
Proof.
  induction l as [|a l IH]; [done|]. simpl.
  change (fires i (eraseTransformer a)) with (fires i a).
  by destruct (fires i a).
Qed.

Lemma firstMatch_eraseTransformer i l :
  firstMatch i (map eraseTransformer l) = eraseTransformer <$> firstMatch i l.
Proof.
  unfold firstMatch.
  by rewrite sortRules_eraseTransformer, removeDuplicates_eraseTransformer,
             find_fires_eraseTransformer.
Qed.

Lemma eraseArrays_lookup_total h l : eraseArrays h !!! l = map eraseTransformer (h !!! l).
Proof.
  unfold eraseArrays. rewrite !lookup_total_alt, lookup_fmap. by destruct (h !! l).
Qed.

Lemma winner_eraseArrays i h ruleSets :
  winner i (eraseArrays h) ruleSets = eraseTransformer <$> winner i h ruleSets.
Proof.
  induction ruleSets as [|rs rest IH]; [done|]. simpl.
  rewrite IH, eraseArrays_lookup_total, firstMatch_eraseTransformer.
  destruct (set_condition rs i None); [|done].
  by destruct (firstMatch i (h !!! set_rules rs)).
Qed.

Lemma includes_eraseTransformer l rule :
  includes (map eraseTransformer l) (eraseTransformer rule) = includes l rule.
Proof.
  unfold includes. induction l as [|a l IH]; [done|]. simpl. by rewrite IH.
Qed.

Lemma groupIncludes_eraseArrays h rule group :
  groupIncludes (eraseArrays h) (eraseTransformer rule) group = groupIncludes h rule group.
Proof.
  unfold groupIncludes. by rewrite eraseArrays_lookup_total, includes_eraseTransformer.
Qed.

Lemma find_pointwise {A} (p q : A → bool) l :
  (∀ a, p a = q a) → List.find p l = List.find q l.
Proof.
  intros Hpq. induction l as [|a l IH]; [done|]. simpl. by rewrite Hpq, IH.
Qed.

Lemma labelOutcome_eraseArrays h i groups rule result :
  labelOutcome (eraseArrays h) i groups (eraseTransformer rule) result
  = labelOutcome h i groups rule result.
Proof.
  unfold labelOutcome, bodyOf, tagOf, groupsWith.
  rewrite (filter_ext _ _ (groupIncludes_eraseArrays h rule)).
  rewrite (find_pointwise _ _ groups (groupIncludes_eraseArrays h rule)).
  done.
Qed.

Lemma outcomeOf_eraseArrays groupSelectors ruleSelectors0 defaultOutput h i :
  outcomeOf groupSelectors ruleSelectors0 defaultOutput (eraseArrays h) i
  = outcomeOf groupSelectors ruleSelectors0 defaultOutput h i.
Proof.
  unfold outcomeOf. rewrite winner_eraseArrays.
  destruct (winner i h _) as [rule|]; simpl; [|done].
  apply labelOutcome_eraseArrays.
Qed.

(** C10. The [resultTransformer] of a rule is never called: only the
    transformers of the groups are folded over the output.  Two stores
    whose rules differ in their own [resultTransformer] only give the same
    result, and a label is the fold of the group transformers. *)
Theorem fizzBuzz_ignores_rule_transformers
  (start end_ step : Z) (plugins : option (list FizzBuzzPlugin))
  (defaultOutput : option (Z → string)) (resultFormatter : option ResultFormatter)
  (σ1 σ2 : Store) :
  eraseArrays (arrays σ1) = eraseArrays (arrays σ2) →
  fst (fizzBuzz start end_ step plugins defaultOutput resultFormatter σ1)
  = fst (fizzBuzz start end_ step plugins defaultOutput resultFormatter σ2)
  ∧ (∀ i groups rule label,
       fst (labelRule i groups rule "" σ1) = Normal label →
       label = "[" +:+ tagOf (arrays σ1) rule groups +:+ ": "
               +:+ fold_left (fun previous transformer => transformer previous i None)
                             (omap group_resultTransformer (groupsWith (arrays σ1) rule groups))
                             (output rule)
               +:+ "]").
Proof.
  intros Herase. split.
  - rewrite !fizzBuzz_outcomes.
    destruct ((step =? 0) && (0 <? end_ - start + 1)); [done|].
    assert (∀ n, outcomeOf (x_ruleGroupSelectors (extractPlugins (default [] plugins)))
                           (x_ruleSelectors (extractPlugins (default [] plugins)))
                           (default toString defaultOutput) (arrays σ1) n
                 = outcomeOf (x_ruleGroupSelectors (extractPlugins (default [] plugins)))
                             (x_ruleSelectors (extractPlugins (default [] plugins)))
                             (default toString defaultOutput) (arrays σ2) n) as Hsame.
    { intros n. rewrite <- (outcomeOf_eraseArrays _ _ _ (arrays σ1)).
      rewrite <- (outcomeOf_eraseArrays _ _ _ (arrays σ2)). by rewrite Herase. }
    by rewrite (map_ext _ _ Hsame).
  - intros i groups rule label [_ ->]%labelRule_normal. done.
Qed.

Lemma fizzBuzz_ignores_rule_transformers_witness :
  fst (fizzBuzz 10 20 1 (Some [demoPlugin]) None None transformedStore)
  = fst (fizzBuzz 10 20 1 (Some [demoPlugin]) None None demoStore).
Proof.
  apply (fizzBuzz_ignores_rule_transformers 10 20 1 (Some [demoPlugin]) None None
           transformedStore demoStore).
  apply map_eq. intros l. unfold eraseArrays. rewrite !lookup_fmap.
  destruct (decide (l = 1%positive)) as [->|Hne]; [reflexivity|].
  simpl. by rewrite !lookup_singleton_ne.
Defined.

(** ** The range of a run *)


Lemma ceilDiv_bounds_neg a b : b < 0 → ceilDiv a b * b <= a < (ceilDiv a b - 1) * b.
Proof.
  intros Hb. unfold ceilDiv.
  pose proof (Z.div_mod (- a) b ltac:(lia)) as Hdm.
  pose proof (Z.mod_neg_bound (- a) b Hb) as Hmod.
  nia.
Qed.







(** X4. An empty range (an [end] below [start] with a positive step, or an
    [end] not below [start - 1] with a negative one): the run formats the
    empty sequence, whatever the plugins, and leaves the store as it was;
    with the default formatter the result is the empty string. *)
Theorem fizzBuzz_empty_range
  (start end_ step : Z) (plugins : option (list FizzBuzzPlugin))
  (defaultOutput : option (Z → string)) (resultFormatter : option ResultFormatter) (σ : Store) :
  (0 < step ∧ end_ < start) ∨ (step < 0 ∧ start <= end_ + 1) →
  fizzBuzz start end_ step plugins defaultOutput resultFormatter σ
  = (Normal (default (join " ") resultFormatter []), σ)
  ∧ fizzBuzz start end_ step plugins defaultOutput None σ = (Normal "", σ).
Proof.
  intros Hrange.
  assert (numbersOf start end_ step = []) as Hnone.
  { unfold numbersOf.
    replace (Z.to_nat (ceilDiv (end_ - start + 1) step)) with 0%nat; [done|].
    destruct Hrange as [[Hs Hr]|[Hs Hr]].
    - pose proof (ceilDiv_bounds (end_ - start + 1) step Hs). nia.
    - pose proof (ceilDiv_bounds_neg (end_ - start + 1) step Hs). nia. }
  assert (step ≠ 0) as Hstep by lia.
  split; rewrite fizzBuzz_evaluateEach by done; by rewrite Hnone.
Qed.

Lemma fizzBuzz_empty_range_witness :
  fizzBuzz 5 1 1 (Some [demoPlugin]) None None demoStore = (Normal "", demoStore).
Proof.
  apply (fizzBuzz_empty_range 5 1 1 (Some [demoPlugin]) None None demoStore).
  left. lia.
Defined.

(** ** Exceptions *)



Lemma allNormal_Normal {A} (outcomes : list (Completion A)) (values : list A) :
  allNormal outcomes = Normal values ↔ Forall2 (fun outcome a => outcome = Normal a) outcomes values.
Proof.
  revert values. induction outcomes as [|o outcomes IH]; intros values; simpl.
  - split; [intros [= <-]; constructor|by intros ->%Forall2_nil_inv_l].
  - destruct o as [a|e].
    + destruct (allNormal outcomes) as [l|e] eqn:E.
      * split.
        -- intros [= <-]. constructor; [done|by apply IH].
        -- intros (b & values' & [= <-] & Hrest & ->)%Forall2_cons_inv_l.
           apply IH in Hrest. by injection Hrest as ->.
      * split; [done|].
        intros (b & values' & _ & Hrest & ->)%Forall2_cons_inv_l.
        by apply IH in Hrest.
    + split; [done|]. by intros (b & values' & ? & _)%Forall2_cons_inv_l.
Qed.


(** ** Numbers are evaluated independently *)



(** ** Evaluating again *)

Lemma activated_settled h0 h i ruleSets :
  settled h0 h → activated i h ruleSets = activated i h0 ruleSets.
Proof.
  intros Hs. induction ruleSets as [|rs rest IH]; [done|].
  simpl. by rewrite IH, (firstMatch_settled h0 h).
Qed.

Lemma sortAll_idem ls h : sortAll ls (sortAll ls h) = sortAll ls h.
Proof.
  apply map_eq. intros l. rewrite !sortAll_lookup.
  case_decide; [|done].
  destruct (h !! l); simpl; [|done]. by rewrite sortRules_idem.
Qed.

(** X7. The in-place sort does not show in later results.  Evaluating a
    number a second time gives the same outcome and leaves the arrays as
    the first evaluation left them; and a run started on the store that
    any earlier run left behind returns what it returns on the store of the
    start. *)
Theorem evaluation_is_repeatable
  (groupSelectors : list RuleGroupSelector) (ruleSelectors0 : list RuleSelector)
  (defaultOutput : Z → string) (i : Z) (σ : Store) :
  let σ1 := snd (applyRules groupSelectors ruleSelectors0 defaultOutput i σ) in
  fst (applyRules groupSelectors ruleSelectors0 defaultOutput i σ1)
  = fst (applyRules groupSelectors ruleSelectors0 defaultOutput i σ)
  ∧ arrays (snd (applyRules groupSelectors ruleSelectors0 defaultOutput i σ1)) = arrays σ1
  ∧ (∀ start end_ step plugins output formatter start' end' step' plugins' output' formatter',
       fst (fizzBuzz start end_ step plugins output formatter
                     (snd (fizzBuzz start' end' step' plugins' output' formatter' σ)))
       = fst (fizzBuzz start end_ step plugins output formatter σ)).
Proof.
  intros σ1.
  pose proof (applyRules_settled groupSelectors ruleSelectors0 defaultOutput i σ) as Hs.
  fold σ1 in Hs.
  split.
  { rewrite !applyRules_outcome. by apply outcomeOf_settled. }
  split.
  { rewrite applyRules_arrays, (activated_settled (arrays σ)) by done.
    subst σ1. rewrite applyRules_arrays. apply sortAll_idem. }
  intros. rewrite !fizzBuzz_outcomes.
  destruct ((step =? 0) && (0 <? end_ - start + 1)); [done|].
  pose proof (fizzBuzz_settled start' end' step' plugins' output' formatter' σ) as Hrun.
  erewrite map_ext; [done|].
  intros n. by apply outcomeOf_settled.
Qed.

(** ** The trace of events *)

Lemma firedAt_settled ruleSelectors0 h0 h i :
  settled h0 h → firedAt ruleSelectors0 h i = firedAt ruleSelectors0 h0 i.
Proof. intros Hs. unfold firedAt. by rewrite (winner_settled h0 h). Qed.

Lemma applyRules_trace groupSelectors ruleSelectors0 defaultOutput i σ :
  trace (snd (applyRules groupSelectors ruleSelectors0 defaultOutput i σ))
  = trace σ ++ firedAt ruleSelectors0 (arrays σ) i.
Proof. by rewrite applyRules_run. Qed.

Lemma evaluateEach_trace groupSelectors ruleSelectors0 defaultOutput h0 numbers σ labels :
  settled h0 (arrays σ) →
  fst (evaluateEach (applyRules groupSelectors ruleSelectors0 defaultOutput) numbers σ)
  = Normal labels →
  trace (snd (evaluateEach (applyRules groupSelectors ruleSelectors0 defaultOutput) numbers σ))
  = trace σ ++ flat_map (firedAt ruleSelectors0 h0) numbers.
Proof.
  revert σ labels. induction numbers as [|num rest IH]; intros σ labels Hs; simpl.
  - intros _. by rewrite app_nil_r.
  - unfold bind at 1 3.
    pose proof (applyRules_trace groupSelectors ruleSelectors0 defaultOutput num σ) as Htr.
    pose proof (applyRules_settled groupSelectors ruleSelectors0 defaultOutput num σ) as Hset.
    rewrite (firedAt_settled _ h0) in Htr by done.
    destruct (applyRules _ _ _ num σ) as [[label|e] σ1]; simpl in *; [|done].
    unfold bind. specialize (IH σ1).
    destruct (evaluateEach _ rest σ1) as [[labels'|e] σ2]; simpl in *; [|done].
    intros _. rewrite (IH labels') by (done || by eapply settled_trans).
    by rewrite Htr, app_assoc.
Qed.

Lemma evaluateEach_trace_prefix groupSelectors ruleSelectors0 defaultOutput numbers σ :
  trace σ `prefix_of`
    trace (snd (evaluateEach (applyRules groupSelectors ruleSelectors0 defaultOutput) numbers σ)).
Proof.
  revert σ. induction numbers as [|num rest IH]; intros σ; simpl; [done|].
  unfold bind at 1.
  pose proof (applyRules_trace groupSelectors ruleSelectors0 defaultOutput num σ) as Htr.
  destruct (applyRules _ _ _ num σ) as [[label|e] σ1]; simpl in *.
  - unfold bind. specialize (IH σ1).
    destruct (evaluateEach _ rest σ1) as [[labels'|e] σ2]; simpl in *;
      (etrans; [|exact IH]); rewrite Htr; by apply prefix_app_r.
  - rewrite Htr. by apply prefix_app_r.
Qed.

(** X8. Events are only ever added to the trace, failing run or not.  A run
    that completes has fired, number after number, the events of the rule
    that won for that number, each with that number, in the order of the
    [events] array, and nothing else. *)
Theorem fizzBuzz_trace
  (start end_ step : Z) (plugins : option (list FizzBuzzPlugin))
  (defaultOutput : option (Z → string)) (resultFormatter : option ResultFormatter) (σ : Store) :
  let out := fizzBuzz start end_ step plugins defaultOutput resultFormatter σ in
  trace σ `prefix_of` trace (snd out)
  ∧ (∀ result, fst out = Normal result →
       trace (snd out)
       = trace σ
         ++ flat_map (fun n =>
                        match winner n (arrays σ)
                                (collectRuleSets
                                   (x_ruleSelectors (extractPlugins (default [] plugins))) n) with
                        | Some rule => map (fun event => (event, n)) (default [] (events rule))
                        | None => []
                        end)
                     (numbersOf start end_ step)).
Proof.
  intros out. subst out. unfold fizzBuzz.
  destruct ((step =? 0) && (0 <? end_ - start + 1)); [by split|].
  unfold arrayFrom. rewrite arrayFromAt_evaluateEach. fold (numbersOf start end_ step).
  unfold bind.
  pose proof (evaluateEach_trace_prefix
                (x_ruleGroupSelectors (extractPlugins (default [] plugins)))
                (x_ruleSelectors (extractPlugins (default [] plugins)))
                (default toString defaultOutput) (numbersOf start end_ step) σ) as Hpre.
  pose proof (evaluateEach_trace
                (x_ruleGroupSelectors (extractPlugins (default [] plugins)))
                (x_ruleSelectors (extractPlugins (default [] plugins)))
                (default toString defaultOutput) (arrays σ) (numbersOf start end_ step) σ)
    as Htr.
  destruct (evaluateEach _ _ σ) as [[labels|e] σ']; simpl in *; [|by split].
  split; [done|]. intros result _. apply (Htr labels); [apply settled_refl|done].
Qed.

Lemma fizzBuzz_trace_witness :
  trace (snd (fizzBuzz 7 12 1 (Some [bellPlugin]) None None bellStore))
  = [("ring", 8); ("log", 8); ("ring", 12); ("log", 12)].
Proof.
  apply (fizzBuzz_trace 7 12 1 (Some [bellPlugin]) None None bellStore) with (result := "7 [Default: Bell] 9 10 11 [Default: Bell]").
  reflexivity.
Defined.

(** ** Which rule wins *)

Lemma find_dropRepeats (P : FizzBuzzRule → bool) previous l :
  identified (previous :: l) → P previous = false →
  List.find P (dropRepeats previous l) = List.find P l.
Proof.
  revert previous. induction l as [|b l IH]; intros previous Hid Hp; [done|].
  assert (identified (b :: l)) as Hid'.
  { intros u v Hu Hv. apply Hid; by right. }
  simpl. destruct (sameRule b previous) eqn:Hsame.
  - apply sameRule_true in Hsame.
    assert (b = previous) as -> by (apply Hid; [by right; left|by left|done]).
    rewrite Hp. by apply IH.
  - simpl. destruct (P b) eqn:Hb; [done|]. by apply IH.
Qed.

Lemma find_removeDuplicates (P : FizzBuzzRule → bool) l :
  identified l → List.find P (removeDuplicates l) = List.find P l.
Proof.
  destruct l as [|a l]; [done|]. intros Hid.
  rewrite removeDuplicates_cons. simpl.
  destruct (P a) eqn:Ha; [done|]. by apply find_dropRepeats.
Qed.

Lemma find_filter_keep {A} (P Q : A → bool) l x :
  List.find P l = Some x → Q x = true → List.find P (List.filter Q l) = Some x.
Proof.
  intros Hfind Hq. induction l as [|a l IH]; [done|].
  simpl in *. destruct (P a) eqn:Hp.
  - injection Hfind as ->. rewrite Hq. simpl. by rewrite Hp.
  - destruct (Q a); simpl; [rewrite Hp|]; by apply IH.
Qed.

Lemma firstMatch_find_sorted i rules :
  identified rules → firstMatch i rules = List.find (fires i) (sortRules rules).
Proof.
  intros Hid. unfold firstMatch. apply find_removeDuplicates.
  eapply identified_perm; [symmetry; apply sortRules_perm|done].
Qed.


Lemma identified_pair a b : ident a ≠ ident b → identified [a; b].
Proof.
  intros Hne u v Hu Hv Huv.
  apply list_elem_of_In in Hu, Hv. simpl in Hu, Hv.
  destruct Hu as [<-|[<-|[]]], Hv as [<-|[<-|[]]]; congruence.
Qed.


(** X10. Ties go to the earlier rule of the array.  The rule that wins in a
    rule set is the rule of least priority among those that fire and,
    among the firing rules of that priority, the first in the order of the
    [rules] array as it was given; and these two facts determine it. *)
Theorem firstMatch_is_earliest_of_least_priority
  (i : Z) (rules : list FizzBuzzRule) (rule : FizzBuzzRule) :
  identified rules →
  firstMatch i rules = Some rule
  ↔ List.find (fires i) (withPriority (priorityOf rule) rules) = Some rule
    ∧ ∀ other, other ∈ rules → fires i other = true → priorityOf rule <= priorityOf other.
Proof.
  intros Hid.
  assert (∀ r, firstMatch i rules = Some r →
               List.find (fires i) (withPriority (priorityOf r) rules) = Some r) as Hearliest.
  { intros r Hr. rewrite firstMatch_find_sorted in Hr by done.
    rewrite <- sortRules_stable. unfold withPriority.
    apply find_filter_keep; [done|]. apply Z.eqb_refl. }
  split.
  - intros Hfm. split; [by apply Hearliest|].
    intros other. by apply firstMatch_minimal.
  - intros [Hfind Hmin].
    assert (rule ∈ rules ∧ fires i rule = true) as [Hin Hf].
    { apply find_some in Hfind as [Hin%filter_In Hf]. split; [|done].
      apply list_elem_of_In. tauto. }
    destruct (firstMatch_exists i rules rule Hid Hin Hf) as [r Hr].
    pose proof (firstMatch_elem _ _ _ Hr) as [Hrin Hrf].
    pose proof (firstMatch_minimal i rules r rule Hid Hr Hin Hf) as Hle.
    pose proof (Hmin r Hrin Hrf) as Hge.
    apply Hearliest in Hr as Hr'.
    replace (priorityOf r) with (priorityOf rule) in Hr' by lia.
    rewrite Hr. congruence.
Qed.

Lemma firstMatch_is_earliest_of_least_priority_witness :
  firstMatch 30 [buzzRule; sixRule; fizzRule] = Some sixRule.
Proof.
  assert (identified [buzzRule; sixRule; fizzRule]) as Hid.
  { intros u v Hu Hv Huv. apply list_elem_of_In in Hu, Hv. simpl in Hu, Hv.
    destruct Hu as [<-|[<-|[<-|[]]]], Hv as [<-|[<-|[<-|[]]]]; done. }
  apply (firstMatch_is_earliest_of_least_priority
           30 [buzzRule; sixRule; fizzRule] sixRule Hid).
  split; [reflexivity|].
  intros other Hin _. apply list_elem_of_In in Hin. simpl in Hin.
  destruct Hin as [<-|[<-|[<-|[]]]]; unfold priorityOf; simpl; lia.
Defined.

(** ** The filter of line 135 *)

Lemma dropRepeats_distinct x previous l :
  ident x = ident previous → distinctFrom x (dropRepeats previous l).
Proof.
  revert x previous. induction l as [|b l IH]; intros x previous Hx; simpl; [done|].
  destruct (sameRule b previous) eqn:Hsame.
  - apply sameRule_true in Hsame. apply IH. congruence.
  - simpl. split.
    + intros Hb. assert (sameRule b previous = true) as Hs by (apply sameRule_true; congruence).
      congruence.
    + by apply IH.
Qed.

Lemma dropRepeats_fixed previous l : distinctFrom previous l → dropRepeats previous l = l.
Proof.
  revert previous. induction l as [|b l IH]; intros previous; simpl; [done|].
  intros [Hne Hrest]. destruct (sameRule b previous) eqn:Hsame.
  - by apply sameRule_true in Hsame.
  - by rewrite IH.
Qed.

(** X11. What the filter of line 135 returns: a subsequence of its input with
    the same first element, in which no rule has the identity of the rule
    just before it; a sequence that is already so is returned as it is, so
    filtering twice is filtering once. *)
Theorem removeDuplicates_adjacent (rules : list FizzBuzzRule) :
  removeDuplicates rules `sublist_of` rules
  ∧ head (removeDuplicates rules) = head rules
  ∧ noRepeats (removeDuplicates rules)
  ∧ (noRepeats rules → removeDuplicates rules = rules)
  ∧ removeDuplicates (removeDuplicates rules) = removeDuplicates rules.
Proof.
  assert (∀ l, noRepeats (removeDuplicates l)) as Hno.
  { intros [|a l]; [done|]. rewrite removeDuplicates_cons. simpl.
    by apply dropRepeats_distinct. }
  assert (∀ l, noRepeats l → removeDuplicates l = l) as Hfix.
  { intros [|a l]; [done|]. simpl. intros Hd.
    by rewrite removeDuplicates_cons, dropRepeats_fixed. }
  split; [apply removeDuplicates_sublist|].
  split; [destruct rules; [done|by rewrite removeDuplicates_cons]|].
  split; [apply Hno|]. split; [apply Hfix|]. apply Hfix, Hno.
Qed.

Lemma removeDuplicates_adjacent_witness :
  removeDuplicates [fizzRule; buzzRule; fizzRule] = [fizzRule; buzzRule; fizzRule].
Proof.
  apply (proj1 (proj2 (proj2 (proj2
           (removeDuplicates_adjacent [fizzRule; buzzRule; fizzRule]))))).
  cbv. repeat split; intros [=].
Defined.

(** ** Tags and transformers *)



(** X13. The transformers of the groups act one group after the other: the
    transformation by a sequence of groups followed by a second sequence is
    the transformation by the second of the result of the first; a group
    without transformer changes nothing. *)
Theorem applyResultTransformer_composes
  (result : string) (num : Z) (groups1 groups2 : list TaggedRuleGroup) :
  applyResultTransformer result num (groups1 ++ groups2)
  = applyResultTransformer (applyResultTransformer result num groups1) num groups2
  ∧ ((∀ group, group ∈ groups1 → group_resultTransformer group = None) →
     applyResultTransformer result num (groups1 ++ groups2)
     = applyResultTransformer result num groups2).
Proof.
  unfold applyResultTransformer.
  split.
  - by rewrite flat_map_app, fold_left_app.
  - intros Hnone. rewrite flat_map_app.
    assert (flat_map (fun group => match group_resultTransformer group with
                                   | Some t => [t]
                                   | None => []
                                   end) groups1 = []) as ->; [|done].
    induction groups1 as [|g groups1 IH]; [done|].
    simpl. rewrite (Hnone g) by by left. apply IH. intros g' Hg'. apply Hnone. by right.
Qed.

Lemma applyResultTransformer_composes_witness :
  applyResultTransformer "Fizz" 3
    ([mkGroup "Plain" 1%positive SelectAll None None]
       ++ [mkGroup "Again" 1%positive SelectAll None (Some bracket)])
  = "<Fizz>".
Proof.
  rewrite (proj2 (applyResultTransformer_composes "Fizz" 3
                    [mkGroup "Plain" 1%positive SelectAll None None]
                    [mkGroup "Again" 1%positive SelectAll None (Some bracket)])).
  - reflexivity.
  - intros group Hin. apply list_elem_of_In in Hin. by destruct Hin as [<-|[]].
Defined.

(** ** What group selectors and the default output cannot change *)

(** X14. Groups only label.  Which rule wins, which events fire and which
    arrays are sorted depend on the rule selectors alone: two evaluations
    of a number that differ in the group selectors and in the default
    output leave the same store. *)
Theorem groups_only_label
  (groupSelectors1 groupSelectors2 : list RuleGroupSelector) (ruleSelectors0 : list RuleSelector)
  (defaultOutput1 defaultOutput2 : Z → string) (i : Z) (σ : Store) :
  snd (applyRules groupSelectors1 ruleSelectors0 defaultOutput1 i σ)
  = snd (applyRules groupSelectors2 ruleSelectors0 defaultOutput2 i σ)
  ∧ (∀ rule, winner i (arrays σ) (collectRuleSets ruleSelectors0 i) = Some rule →
       fst (applyRules groupSelectors1 ruleSelectors0 defaultOutput1 i σ)
       = fst (applyRules groupSelectors1 ruleSelectors0 defaultOutput2 i σ)).
Proof.
  rewrite !applyRules_run. split; [done|]. by intros rule ->.
Qed.

Lemma groups_only_label_witness :
  fst (applyRules [demoGroupSelector] [demoRuleSelector] toString 15 demoStore)
  = fst (applyRules [demoGroupSelector] [demoRuleSelector] (fun _ => "none") 15 demoStore).
Proof.
  apply (groups_only_label [demoGroupSelector] [demoGroupSelector] [demoRuleSelector]
           toString (fun _ => "none") 15 demoStore) with (rule := fizzRule).
  reflexivity.
Defined.

(** ** Rule selectors in sequence *)

Lemma winner_app i h ruleSets1 ruleSets2 :
  winner i h (ruleSets1 ++ ruleSets2)
  = match winner i h ruleSets1 with
    | Some rule => Some rule
    | None => winner i h ruleSets2
    end.
Proof.
  induction ruleSets1 as [|rs rest IH]; [done|]. simpl. rewrite IH.
  destruct (set_condition rs i None); [|done].
  by destruct (firstMatch i (h !!! set_rules rs)).
Qed.

Lemma collectRuleSets_app selectors1 selectors2 i :
  collectRuleSets (selectors1 ++ selectors2) i
  = collectRuleSets selectors1 i ++ collectRuleSets selectors2 i.
Proof. by rewrite !collectRuleSets_flat_map, flat_map_app. Qed.

(** X15. Earlier rule selectors take precedence.  With the rule selectors
    [selectors1 ++ selectors2] a number gets the result that [selectors1]
    alone give it whenever they have a match for it, and otherwise the
    result that [selectors2] alone give it. *)
Theorem rule_selectors_first_match
  (groupSelectors : list RuleGroupSelector) (selectors1 selectors2 : list RuleSelector)
  (defaultOutput : Z → string) (i : Z) (σ : Store) :
  fst (applyRules groupSelectors (selectors1 ++ selectors2) defaultOutput i σ)
  = match winner i (arrays σ) (collectRuleSets selectors1 i) with
    | Some _ => fst (applyRules groupSelectors selectors1 defaultOutput i σ)
    | None => fst (applyRules groupSelectors selectors2 defaultOutput i σ)
    end.
Proof.
  rewrite !applyRules_run. simpl. rewrite collectRuleSets_app, winner_app.
  by destruct (winner i (arrays σ) (collectRuleSets selectors1 i)).
Qed.

(** ** Plugins *)

(** X16. A run sees its plugins only through the concatenation of their group
    selectors and the concatenation of their rule selectors.  How the
    selectors are spread over plugins does not matter, and neither the
    [resultFormatters] nor the [ruleGroupModifiers] of a plugin are ever
    used: the labels are joined by the [resultFormatter] argument alone. *)
Theorem fizzBuzz_reads_selectors_only
  (start end_ step : Z) (plugins1 plugins2 : list FizzBuzzPlugin)
  (defaultOutput : option (Z → string)) (resultFormatter : option ResultFormatter) (σ : Store) :
  concat (map (fun plugin => default [] (ruleGroupSelectors plugin)) plugins1)
  = concat (map (fun plugin => default [] (ruleGroupSelectors plugin)) plugins2) →
  concat (map (fun plugin => default [] (ruleSelectors plugin)) plugins1)
  = concat (map (fun plugin => default [] (ruleSelectors plugin)) plugins2) →
  fizzBuzz start end_ step (Some plugins1) defaultOutput resultFormatter σ
  = fizzBuzz start end_ step (Some plugins2) defaultOutput resultFormatter σ.
Proof.
  intros Hg Hr. unfold fizzBuzz, extractPlugins. simpl.
  rewrite !fold_extractPlugin. simpl.
  rewrite !flat_map_concat_map. by rewrite Hg, Hr.
Qed.

Lemma fizzBuzz_reads_selectors_only_witness :
  fizzBuzz 10 20 1 (Some splitPlugins) None None demoStore
  = fizzBuzz 10 20 1 (Some [demoPlugin]) None None demoStore.
Proof.
  apply fizzBuzz_reads_selectors_only; reflexivity.
Defined.

(** ** Combinators *)



(** X18. With its [rules] present an AND combinator holds exactly when every
    rule matches and an OR combinator exactly when some rule does; so AND
    of no rule is true, OR of no rule is false, both split over a
    concatenation, a rule with neither evaluator nor condition makes an AND
    false and adds nothing to an OR, and NOT of a rule is the negation of
    the AND, and of the OR, of that rule alone. *)
Theorem evaluateRuleCombinator_connectives
  (rules1 rules2 : list FizzBuzzRule) (rule : FizzBuzzRule) (num : Z) (context : Context) :
  let AND rules := evaluateRuleCombinator (mkCombinator (Some "AND") (Some rules) None)
                                          num context in
  let OR rules := evaluateRuleCombinator (mkCombinator (Some "OR") (Some rules) None)
                                         num context in
  let NOT r := evaluateRuleCombinator (mkCombinator (Some "NOT") None (Some r)) num context in
  (AND rules1 = Normal true ↔ ∀ r, r ∈ rules1 → evaluateRule r num context = true)
  ∧ (OR rules1 = Normal true ↔ ∃ r, r ∈ rules1 ∧ evaluateRule r num context = true)
  ∧ AND (rules1 ++ rules2)
    = match AND rules1, AND rules2 with
      | Normal a, Normal b => Normal (a && b)
      | _, _ => Throw TypeError
      end
  ∧ OR (rules1 ++ rules2)
    = match OR rules1, OR rules2 with
      | Normal a, Normal b => Normal (a || b)
      | _, _ => Throw TypeError
      end
  ∧ (evaluator rule = None → rule_condition rule = None →
     AND (rule :: rules1) = Normal false ∧ OR (rule :: rules1) = OR rules1
     ∧ NOT rule = Normal true)
  ∧ (∀ b, NOT rule = Normal b ↔ AND [rule] = Normal (negb b))
  ∧ (∀ b, NOT rule = Normal b ↔ OR [rule] = Normal (negb b))
  ∧ (rules1 ≠ [] → AND rules1 = Normal true → OR rules1 = Normal true).
Proof.
  intros AND OR NOT. subst AND OR NOT. unfold evaluateRuleCombinator. simpl.
  split.
  { split.
    - intros [= H]. rewrite forallb_forall in H. intros r Hr. by apply H, list_elem_of_In.
    - intros H. f_equal. apply forallb_forall. intros r Hr. by apply H, list_elem_of_In. }
  split.
  { split.
    - intros [= H]. apply existsb_exists in H as (r & Hr & Hm).
      exists r. split; [by apply list_elem_of_In|done].
    - intros (r & Hr & Hm). f_equal. apply existsb_exists.
      exists r. split; [by apply list_elem_of_In|done]. }
  split; [by rewrite forallb_app|].
  split; [by rewrite existsb_app|].
  split.
  { intros He Hc. unfold evaluateRule. by rewrite He, Hc. }
  split.
  { intros b. rewrite andb_true_r.
    destruct (evaluateRule rule num context), b; split; by intros [=]. }
  split.
  { intros b. rewrite orb_false_r.
    destruct (evaluateRule rule num context), b; split; by intros [=]. }
  intros Hne [= Hall]. f_equal.
  destruct rules1 as [|r rest]; [done|]. simpl in *.
  apply andb_prop in Hall as [-> _]. done.
Qed.

Lemma evaluateRuleCombinator_connectives_witness :
  evaluateRuleCombinator (mkCombinator (Some "AND") (Some [bareRule; fizzRule]) None) 9 None
  = Normal false
  ∧ evaluateRuleCombinator (mkCombinator (Some "NOT") None (Some bareRule)) 9 None
    = Normal true.
Proof.
  pose proof (evaluateRuleCombinator_connectives [fizzRule] [] bareRule 9 None)
    as (_ & _ & _ & _ & Hbare & _).
  destruct (Hbare eq_refl eq_refl) as (Hand & _ & Hnot).
  split; [exact Hand|exact Hnot].
Defined.

(** ** The default output *)

Lemma toString_first (num : Z) :
  ∃ c rest, toString num = String c rest
            ∧ (c = "-"%char ∨ c = "0"%char ∨ c = "1"%char ∨ c = "2"%char ∨ c = "3"%char
               ∨ c = "4"%char ∨ c = "5"%char ∨ c = "6"%char ∨ c = "7"%char ∨ c = "8"%char
               ∨ c = "9"%char).
Proof.
  unfold toString. destruct num as [|p|p]; simpl.
  - eexists _, _. split; [reflexivity|]. tauto.
  - pose proof (DecimalPos.Unsigned.to_uint_nonnil p) as Hnil.
    destruct (Pos.to_uint p); [done|..]; eexists _, _; (split; [reflexivity|]); tauto.
  - eexists _, _. split; [reflexivity|]. tauto.
Qed.

(** X19. The default output writes a number in decimal: different numbers get
    different labels, and the label of a number never begins with an
    opening bracket.  With the default output the result for a number
    therefore begins with a bracket exactly when a rule won. *)
Theorem default_labels_are_distinct
  (groupSelectors : list RuleGroupSelector) (ruleSelectors0 : list RuleSelector)
  (i : Z) (σ : Store) :
  (∀ a b, toString a = toString b → a = b)
  ∧ (∀ n rest, toString n ≠ String "[" rest)
  ∧ (∀ label, fst (applyRules groupSelectors ruleSelectors0 toString i σ) = Normal label →
       (is_Some (winner i (arrays σ) (collectRuleSets ruleSelectors0 i))
        ↔ ∃ rest, label = String "[" rest)).
Proof.
  assert (∀ n rest, toString n ≠ String "[" rest) as Hbracket.
  { intros n rest Hn. destruct (toString_first n) as (c & rest' & Hc & Hdigit).
    rewrite Hc in Hn. injection Hn as -> _.
    repeat (destruct Hdigit as [Hdigit|Hdigit]; [discriminate Hdigit|]).
    discriminate Hdigit. }
  split.
  { intros a b Hab. apply DecimalZ.to_int_inj.
    assert (∀ n, NilZero.int_of_string (toString n) = Some (Z.to_int n)) as Hparse.
    { intros n. unfold toString. apply NilZero.isi.
      - destruct n as [|p|p]; simpl; [done| |done].
        intros [= Hp]. by apply (DecimalPos.Unsigned.to_uint_nonnil p).
      - destruct n as [|p|p]; simpl; [done|done|].
        intros [= Hp]. by apply (DecimalPos.Unsigned.to_uint_nonnil p). }
    pose proof (Hparse a) as Ha. rewrite Hab, Hparse in Ha. by injection Ha. }
  split; [exact Hbracket|].
  intros label. rewrite applyRules_run. simpl.
  destruct (winner i (arrays σ) (collectRuleSets ruleSelectors0 i)) as [rule|].
  - unfold labelOutcome. destruct (decoratorsOf _); [|done].
    intros [= <-]. split; [|by eexists]. intros _. by eexists.
  - intros [= <-]. split; [by intros [? ?]|]. intros [rest Hrest]. by apply Hbracket in Hrest.
Qed.

Lemma default_labels_are_distinct_witness :
  is_Some (winner 15 (arrays demoStore) (collectRuleSets [demoRuleSelector] 15)).
Proof.
  apply (default_labels_are_distinct [] [demoRuleSelector] 15 demoStore)
    with (label := "[Default: Fizz]"); [reflexivity|].
  by eexists.
Defined.

(** ** Runs without rule sets *)

Lemma evaluateEach_no_rule_sets groupSelectors ruleSelectors0 defaultOutput numbers σ :
  (∀ n, n ∈ numbers → collectRuleSets ruleSelectors0 n = []) →
  evaluateEach (applyRules groupSelectors ruleSelectors0 defaultOutput) numbers σ
  = (Normal (map defaultOutput numbers), σ).
Proof.
  induction numbers as [|num rest IH]; intros Hnone; [done|].
  simpl. unfold bind at 1. rewrite applyRules_run, (Hnone num) by by left. simpl.
  rewrite app_nil_r. unfold bind.
  replace {| arrays := arrays σ; trace := trace σ |} with σ by by destruct σ.
  rewrite IH; [done|]. intros n Hn. apply Hnone. by right.
Qed.



(** ** The script *)

(** X21. The script of lines 178-200, for any definition of the three names it
    leaves undefined.  The result formatter that it puts in its plugin is
    never called; what it prints, when the run completes, is the labels of
    the 21 even numbers from 10 to 50 joined by a bar; and when the rule
    selector returns nothing it prints the 21 default labels
    [NotDivisible-10] to [NotDivisible-50]. *)
Theorem scriptResult_prints
  (customRuleGroupSelector : RuleGroupSelector) (customRuleSelector : RuleSelector)
  (customResultFormatter : ResultFormatter) (σ : Store) :
  let out := scriptResult customRuleGroupSelector customRuleSelector customResultFormatter σ in
  (∀ otherFormatter,
     scriptResult customRuleGroupSelector customRuleSelector otherFormatter σ = out)
  ∧ (∀ printed, fst out = Normal printed →
       ∃ labels,
         printed = join "|" labels
         ∧ Forall2 (fun n label =>
                      fst (applyRules [customRuleGroupSelector] [customRuleSelector]
                                      (fun num => "NotDivisible-" +:+ toString num) n σ)
                      = Normal label)
                   [10; 12; 14; 16; 18; 20; 22; 24; 26; 28; 30;
                    32; 34; 36; 38; 40; 42; 44; 46; 48; 50]
                   labels)
  ∧ ((∀ n, customRuleSelector n None = None ∨ customRuleSelector n None = Some []) →
     out = (Normal ("NotDivisible-10|NotDivisible-12|NotDivisible-14|NotDivisible-16|"
                    +:+ "NotDivisible-18|NotDivisible-20|NotDivisible-22|NotDivisible-24|"
                    +:+ "NotDivisible-26|NotDivisible-28|NotDivisible-30|NotDivisible-32|"
                    +:+ "NotDivisible-34|NotDivisible-36|NotDivisible-38|NotDivisible-40|"
                    +:+ "NotDivisible-42|NotDivisible-44|NotDivisible-46|NotDivisible-48|"
                    +:+ "NotDivisible-50"), σ)).
Proof.
  intros out. subst out. unfold scriptResult.
  split; [done|].
  split.
  - intros printed. rewrite fizzBuzz_outcomes.
    change ((2 =? 0) && (0 <? 50 - 10 + 1)) with false. cbv iota.
    destruct (allNormal (map _ (numbersOf 10 50 2))) as [labels|e] eqn:E; [|done].
    intros [= <-]. exists labels. split; [done|].
    apply allNormal_Normal, Forall2_fmap_l in E.
    change (numbersOf 10 50 2)
      with [10; 12; 14; 16; 18; 20; 22; 24; 26; 28; 30;
            32; 34; 36; 38; 40; 42; 44; 46; 48; 50] in E.
    eapply Forall2_impl; [exact E|].
    intros n label Hn. by rewrite applyRules_outcome.
  - intros Hnone. rewrite fizzBuzz_evaluateEach by done. unfold bind.
    rewrite evaluateEach_no_rule_sets; [done|].
    intros n _. unfold collectRuleSets. simpl. by destruct (Hnone n) as [-> | ->].
Qed.

Lemma scriptResult_prints_witness :
  fst (scriptResult demoGroupSelector (fun _ _ => None) (join ",") demoStore)
  = Normal ("NotDivisible-10|NotDivisible-12|NotDivisible-14|NotDivisible-16|"
            +:+ "NotDivisible-18|NotDivisible-20|NotDivisible-22|NotDivisible-24|"
            +:+ "NotDivisible-26|NotDivisible-28|NotDivisible-30|NotDivisible-32|"
            +:+ "NotDivisible-34|NotDivisible-36|NotDivisible-38|NotDivisible-40|"
            +:+ "NotDivisible-42|NotDivisible-44|NotDivisible-46|NotDivisible-48|"
            +:+ "NotDivisible-50").
Proof.
  pose proof (scriptResult_prints demoGroupSelector (fun _ _ => None) (join ",") demoStore)
    as (_ & _ & Hnone).
  rewrite Hnone; [reflexivity|]. intros n. by left.
Defined.

(** ** Rules that do not fire *)

Lemma insertBy_filter (F : FizzBuzzRule → bool) a l :
  StronglySorted priorityLe l →
  List.filter F (insertBy comparePriority a l)
  = if F a then insertBy comparePriority a (List.filter F l) else List.filter F l.
Proof.
  induction 1 as [|b l Hs IH Hb]; simpl.
  - by destruct (F a).
  - destruct (Z.leb_spec (comparePriority a b) 0) as [Hle|Hgt]; simpl.
    + destruct (F a) eqn:Ha; [|done]. destruct (F b) eqn:Hfb; simpl.
      * by rewrite (proj2 (Z.leb_le _ _) Hle).
      * symmetry. apply insertBy_head.
        unfold comparePriority in Hle.
        rewrite Forall_forall in *. intros x [Hx _]%list_elem_of_In%filter_In.
        apply list_elem_of_In in Hx. specialize (Hb x Hx).
        unfold priorityLe in *. lia.
    + rewrite IH. destruct (F a) eqn:Ha, (F b) eqn:Hfb; simpl; try done.
      by rewrite (proj2 (Z.leb_gt _ _) Hgt).
Qed.

Lemma sortRules_filter (F : FizzBuzzRule → bool) l :
  sortRules (List.filter F l) = List.filter F (sortRules l).
Proof.
  induction l as [|a l IH]; [done|].
  unfold sortRules, sortBy in *. simpl.
  rewrite insertBy_filter by apply sortRules_sorted.
  destruct (F a); simpl; by rewrite IH.
Qed.

(** X22. Rules that do not fire for a number are inert: taking them out of the
    array of a rule set (those that their filter rejects and those that do
    not match) does not change which rule wins. *)
Theorem nonfiring_rules_are_inert (i : Z) (rules : list FizzBuzzRule) :
  identified rules →
  firstMatch i (List.filter (fires i) rules) = firstMatch i rules.
Proof.
  intros Hid.
  assert (identified (List.filter (fires i) rules)) as Hid'.
  { intros a b Ha Hb. apply Hid.
    - apply list_elem_of_In, filter_In in Ha. apply list_elem_of_In. tauto.
    - apply list_elem_of_In, filter_In in Hb. apply list_elem_of_In. tauto. }
  rewrite !firstMatch_find_sorted by done.
  by rewrite sortRules_filter, find_filter.
Qed.

Lemma nonfiring_rules_are_inert_witness :
  firstMatch 9 (List.filter (fires 9) [buzzRule; fizzRule]) = firstMatch 9 [buzzRule; fizzRule].
Proof. apply nonfiring_rules_are_inert, identified_pair. intros [=]. Defined.
